(** * BinanceMonitor: funding-rate ranking, premium, collectors, limiter, store

    A shallow embedding of the computational core of the dashboards under
    [src/pages]:

    - [ratemonitor.py]: [BinanceFundingRateTracker.get_top_n],
      [get_biggest_changes] and [run_task];
    - [CryptoRateTradeMonitor.py]: the premium computation, [update_data],
      [get_historical_klines] and [get_historical_funding_rates];
    - [deepseekmoney.py]: [get_klines_parallel];
    - [binanceperpsanalysis.py]: [RateLimiter.acquire],
      [BinanceFuturesAnalyzer.get_position_data] and [analyze_positions].

    Modelling conventions.  Python floats are idealised as exact rationals
    ([Q]); Python's [==] on numbers is [Qeq].  A [dict] is the list of its
    items in insertion order (the order Python iterates it in).  Clock
    readings of [time.time()] are rationals, [datetime] values are integer
    microseconds.  Exceptions are explicit: a computation returns either a
    value or the exception it raised, together with the state it leaves. *)

From Stdlib Require Import String Ascii List Bool ZArith QArith Lia Lqa.
From Stdlib Require Import Permutation Sorted PrimFloat.
Import ListNotations.

Set Implicit Arguments.
Set Warnings "-inexact-float".


Local Open Scope Q_scope.

(** ** Python numbers and exceptions *)

Module Py.

(** [x < y] on floats. *)
Definition Qltb (x y : Q) : bool := negb (Qle_bool y x).

(** The exceptions the modelled code can raise. *)
Inductive exn : Type :=
| ZeroDivisionError
| IndexError
| RequestException
| ValueError.

Inductive result (A : Type) : Type :=
| Ok (a : A)
| Raise (e : exn).
Arguments Ok {A} a.
Arguments Raise {A} e.

Definition bind {A B : Type} (r : result A) (k : A -> result B) : result B :=
  match r with
  | Ok a => k a
  | Raise e => Raise e
  end.

(** Code that mutates an object of type [S] and may raise: the outcome and
    the object as the call leaves it. *)
Definition M (S A : Type) : Type := S -> result A * S.

Definition ret {S A : Type} (a : A) : M S A := fun s => (Ok a, s).
Definition lift {S A : Type} (r : result A) : M S A := fun s => (r, s).
Definition modify {S : Type} (f : S -> S) : M S unit := fun s => (Ok tt, f s).
Definition gets {S A : Type} (f : S -> A) : M S A := fun s => (Ok (f s), s).
Definition mbind {S A B : Type} (m : M S A) (k : A -> M S B) : M S B :=
  fun s =>
    match m s with
    | (Ok a, s') => k a s'
    | (Raise e, s') => (Raise e, s')
    end.

(** [x / y] on floats: raises [ZeroDivisionError] when [y == 0]. *)
Definition truediv (x y : Q) : result Q :=
  if Qeq_bool y 0 then Raise ZeroDivisionError else Ok (x / y).

(** [l[:n]] for a Python int [n]; a negative [n] counts from the end. *)
Definition slice_to {A : Type} (l : list A) (n : Z) : list A :=
  if (n <? 0)%Z
  then firstn (Z.to_nat (Z.of_nat (List.length l) + n)) l
  else firstn (Z.to_nat n) l.

(** [l[i:]] for a non-negative index [i]. *)
Definition slice_from {A : Type} (l : list A) (i : nat) : list A := skipn i l.

(** *** Dictionaries with string keys *)

Definition dict (V : Type) : Type := list (string * V).

Fixpoint dict_get {V : Type} (d : dict V) (k : string) : option V :=
  match d with
  | [] => None
  | (k', v) :: d' => if String.eqb k k' then Some v else dict_get d' k
  end.

(** [d[k] = v]: an existing key keeps its position, a new key goes last. *)
Fixpoint dict_set {V : Type} (d : dict V) (k : string) (v : V) : dict V :=
  match d with
  | [] => [(k, v)]
  | (k', v') :: d' =>
      if String.eqb k k' then (k', v) :: d' else (k', v') :: dict_set d' k v
  end.

Definition keys {V : Type} (d : dict V) : list string := map fst d.

(** A list of items is a dictionary when no key occurs twice. *)
Definition dict_wf {V : Type} (d : dict V) : Prop := NoDup (keys d).

(** *** [sorted(items, key=..., reverse=...)]

    CPython sorts stably with [<] on the keys only; with [reverse=True] it
    reverses the list, sorts it, and reverses the result, which keeps equal
    keys in their original order.  The stable sort is written as an
    insertion sort; on keys totally ordered by [<] every stable sort
    returns the same list. *)

Section Sorted.
Variable A : Type.
Variable key : A -> Q.

Fixpoint insert (x : A) (l : list A) : list A :=
  match l with
  | [] => [x]
  | y :: l' =>
      if Qltb (key y) (key x) then y :: insert x l' else x :: y :: l'
  end.

Fixpoint stable_sort (l : list A) : list A :=
  match l with
  | [] => []
  | x :: l' => insert x (stable_sort l')
  end.

Definition sorted (l : list A) (reverse : bool) : list A :=
  if reverse then rev (stable_sort (rev l)) else stable_sort l.
End Sorted.

End Py.

Import Py.

Declare Scope py_scope.
Delimit Scope py_scope with py.
Notation "x <- m ;; k" := (mbind m (fun x => k))
  (at level 61, m at next level, right associativity) : py_scope.
Notation "m ;; k" := (mbind m (fun _ => k))
  (at level 61, right associativity) : py_scope.

(** ** ratemonitor.py: the ranking functions *)

Definition symbol := string.
Definition entry : Type := (symbol * Q)%type.

(** [get_top_n(rates, n, reverse)]. *)
Definition get_top_n (rates : dict Q) (n : Z) (reverse : bool) : list entry :=
  let sorted_rates := sorted (@snd symbol Q) rates reverse in
  slice_to sorted_rates n.

(** One iteration of the loop of [get_biggest_changes]. *)
Definition changes_step (previous : dict Q) (increasing : bool)
    (changes : dict Q) (item : entry) : dict Q :=
  let (symbol, rate) := item in
  match dict_get previous symbol with
  | Some prev =>
      let change := rate - prev in
      if (increasing && Qltb 0 change) || (negb increasing && Qltb change 0)
      then dict_set changes symbol change
      else changes
  | None => changes
  end.

(** The dictionary [changes] built by the loop of [get_biggest_changes]. *)
Definition changes_of (current previous : dict Q) (increasing : bool) : dict Q :=
  fold_left (changes_step previous increasing) current [].

(** [get_biggest_changes(current, previous, n, increasing)]. *)
Definition get_biggest_changes (current previous : dict Q) (n : Z)
    (increasing : bool) : list entry :=
  let changes := changes_of current previous increasing in
  let sorted_changes := sorted (@snd symbol Q) changes increasing in
  slice_to sorted_changes n.

(** [change = rate - previous[symbol]] on binary64 floats, the numbers
    Python computes with. *)
Definition change_binary64 (rate prev : float) : float := (rate - prev)%float.

(** Python's [==] on lists of [(symbol, value)] pairs. *)
Definition entry_eq (a b : entry) : Prop := fst a = fst b /\ snd a == snd b.
Definition entries_eq (l l' : list entry) : Prop := Forall2 entry_eq l l'.

(** The rates of the end-to-end scenario. *)
Definition scenario_current : dict Q :=
  [("A"%string, 2 # 100); ("B"%string, - (1 # 100)); ("C"%string, 5 # 1000)].
Definition scenario_previous : dict Q :=
  [("A"%string, 1 # 100); ("B"%string, - (1 # 100)); ("C"%string, 1 # 100)].


(** ** CryptoRateTradeMonitor.py *)

(** The premium expression [(futures - spot) / spot * 100] of [update_data]
    and [get_historical_klines]. *)
Definition premium (spot futures : Q) : result Q :=
  bind (truediv (futures - spot) spot) (fun q => Ok (q * 100)).

(** [HOURS_TO_DISPLAY = 4], as a [timedelta] in microseconds. *)
Definition HOURS_TO_DISPLAY : Z := 4.
Definition timedelta_hours (h : Z) : Z := (h * 3600 * 1000000)%Z.

(** The per-symbol record kept in the session state.  The flags
    [historical_data_loaded], [running] and the [charts] handles are not
    touched by the functions modelled here. *)
Record symbol_data : Type := {
  timestamps : list Z;
  spot_prices : list Q;
  futures_prices : list Q;
  premiums : list Q;
  funding_rates : list Q;
  open_interest : list Q;
  last_funding_rate : option Q
}.

Definition set_timestamps (v : list Z) (d : symbol_data) : symbol_data :=
  {| timestamps := v; spot_prices := spot_prices d;
     futures_prices := futures_prices d; premiums := premiums d;
     funding_rates := funding_rates d; open_interest := open_interest d;
     last_funding_rate := last_funding_rate d |}.
Definition set_spot_prices (v : list Q) (d : symbol_data) : symbol_data :=
  {| timestamps := timestamps d; spot_prices := v;
     futures_prices := futures_prices d; premiums := premiums d;
     funding_rates := funding_rates d; open_interest := open_interest d;
     last_funding_rate := last_funding_rate d |}.
Definition set_futures_prices (v : list Q) (d : symbol_data) : symbol_data :=
  {| timestamps := timestamps d; spot_prices := spot_prices d;
     futures_prices := v; premiums := premiums d;
     funding_rates := funding_rates d; open_interest := open_interest d;
     last_funding_rate := last_funding_rate d |}.
Definition set_premiums (v : list Q) (d : symbol_data) : symbol_data :=
  {| timestamps := timestamps d; spot_prices := spot_prices d;
     futures_prices := futures_prices d; premiums := v;
     funding_rates := funding_rates d; open_interest := open_interest d;
     last_funding_rate := last_funding_rate d |}.
Definition set_funding_rates (v : list Q) (d : symbol_data) : symbol_data :=
  {| timestamps := timestamps d; spot_prices := spot_prices d;
     futures_prices := futures_prices d; premiums := premiums d;
     funding_rates := v; open_interest := open_interest d;
     last_funding_rate := last_funding_rate d |}.
Definition set_open_interest (v : list Q) (d : symbol_data) : symbol_data :=
  {| timestamps := timestamps d; spot_prices := spot_prices d;
     futures_prices := futures_prices d; premiums := premiums d;
     funding_rates := funding_rates d; open_interest := v;
     last_funding_rate := last_funding_rate d |}.
Definition set_last_funding_rate (v : option Q) (d : symbol_data) : symbol_data :=
  {| timestamps := timestamps d; spot_prices := spot_prices d;
     futures_prices := futures_prices d; premiums := premiums d;
     funding_rates := funding_rates d; open_interest := open_interest d;
     last_funding_rate := v |}.

(** [l.append(x)] on each series. *)
Definition append {A : Type} (l : list A) (x : A) : list A := l ++ [x].

(** [[i for i, ts in enumerate(timestamps) if ts >= cutoff_time]]. *)
Definition valid_indices (ts : list Z) (cutoff_time : Z) : list nat :=
  map fst
    (filter (fun p => (cutoff_time <=? snd p)%Z)
            (combine (seq 0 (List.length ts)) ts)).

(** The clean-up at the end of [update_data]: every series is cut at the
    index of the first timestamp inside the four-hour window. *)
Definition drop_expired (now : Z) (d : symbol_data) : symbol_data :=
  if (1 <? List.length (timestamps d))%nat then
    let cutoff_time := (now - timedelta_hours HOURS_TO_DISPLAY)%Z in
    match timestamps d with
    | first :: _ =>
        if (first <? cutoff_time)%Z then
          match valid_indices (timestamps d) cutoff_time with
          | start_idx :: _ =>
              {| timestamps := slice_from (timestamps d) start_idx;
                 spot_prices := slice_from (spot_prices d) start_idx;
                 futures_prices := slice_from (futures_prices d) start_idx;
                 premiums := slice_from (premiums d) start_idx;
                 funding_rates := slice_from (funding_rates d) start_idx;
                 open_interest := slice_from (open_interest d) start_idx;
                 last_funding_rate := last_funding_rate d |}
          | [] => d
          end
        else d
    | [] => d
    end
  else d.

(** What [update_data] returns:
    [(spot_price, futures_price, premium, funding_rate, open_interest)]. *)
Definition update_result : Type :=
  (option Q * option Q * option Q * option Q * option Q)%type.

Local Open Scope py_scope.

(** The funding-rate branch of [update_data]; yields the local
    [funding_rate] as the branch leaves it. *)
Definition record_funding_rate (funding_rate : option Q)
    : M symbol_data (option Q) :=
  match funding_rate with
  | Some r =>
      modify (fun d => set_funding_rates (append (funding_rates d) (r * 100)) d) ;;
      modify (set_last_funding_rate (Some r)) ;;
      ret (Some r)
  | None =>
      rates <- gets funding_rates ;;
      match rates with
      | _ :: _ =>
          modify (set_funding_rates (append rates (last rates 0))) ;;
          ret None
      | [] =>
          modify (set_funding_rates (append rates 0)) ;;
          ret (Some 0)
      end
  end.

(** The open-interest branch of [update_data]. *)
Definition record_open_interest (open_interest_now : option Q)
    : M symbol_data (option Q) :=
  match open_interest_now with
  | Some oi =>
      modify (fun d => set_open_interest (append (open_interest d) oi) d) ;;
      ret (Some oi)
  | None =>
      ois <- gets open_interest ;;
      match ois with
      | _ :: _ =>
          modify (set_open_interest (append ois (last ois 0))) ;;
          ret (Some (last ois 0))
      | [] =>
          modify (set_open_interest (append ois 0)) ;;
          ret (Some 0)
      end
  end.

(** [update_data(symbol, symbol_data)], given the clock reading [now] and
    what the four fetches returned ([None] is a failed fetch). *)
Definition update_data (now : Z)
    (spot_price futures_price funding_rate open_interest_now : option Q)
    : M symbol_data update_result :=
  match spot_price, futures_price with
  | Some spot, Some futures =>
      prem <- lift (premium spot futures) ;;
      modify (fun d => set_timestamps (append (timestamps d) now) d) ;;
      modify (fun d => set_spot_prices (append (spot_prices d) spot) d) ;;
      modify (fun d => set_futures_prices (append (futures_prices d) futures) d) ;;
      modify (fun d => set_premiums (append (premiums d) prem) d) ;;
      funding_rate' <- record_funding_rate funding_rate ;;
      open_interest' <- record_open_interest open_interest_now ;;
      modify (drop_expired now) ;;
      ret (Some spot, Some futures, Some prem, funding_rate', open_interest')
  | _, _ => ret (None, None, None, funding_rate, open_interest_now)
  end.

(** A kline row as the loop of [get_historical_klines] reads it: the open
    time in milliseconds (index 0) and the close price (index 4). *)
Definition kline_row : Type := (Z * Q)%type.

Definition klines_result : Type :=
  (list Z * list Q * list Q * list Q)%type.

(** The first and the last millisecond of the years [MINYEAR = 1] to
    [MAXYEAR = 9999], counted from the epoch: 0001-01-01 00:00:00 and
    9999-12-31 23:59:59.999 UTC. *)
Definition MIN_TIMESTAMP_MS : Z := (-62135596800000)%Z.
Definition MAX_TIMESTAMP_MS : Z := 253402300799999%Z.

(** [datetime.fromtimestamp(ms / 1000, tz=timezone.utc)] for an integer
    [ms]: the [datetime], in microseconds since the epoch.  A [datetime] has
    a year from 1 to 9999; for a time outside of these years the call
    raises ([ValueError], or further out [OverflowError], which the code
    that is modelled does not tell apart).  The quotient [ms / 1000] is
    taken exactly, as float arithmetic is throughout; on binary64 floats the
    microsecond is the exact one for every time less than [2^33] seconds
    from the epoch, that is until the year 2242. *)
Definition fromtimestamp (ms : Z) : result Z :=
  if ((MIN_TIMESTAMP_MS <=? ms) && (ms <=? MAX_TIMESTAMP_MS))%Z
  then Ok (ms * 1000)%Z
  else Raise ValueError.

(** The times [fromtimestamp] converts. *)
Definition in_datetime_range (ms : Z) : Prop :=
  (MIN_TIMESTAMP_MS <= ms <= MAX_TIMESTAMP_MS)%Z.

(** The body of the [for i in range(min_length)] loop. *)
Definition klines_step (acc : klines_result) (row : kline_row * kline_row)
    : result klines_result :=
  let '(ts, spots, futs, prems) := acc in
  let '((open_time, spot_close), (_, futures_close)) := row in
  bind (fromtimestamp open_time) (fun timestamp =>
  bind (premium spot_close futures_close) (fun prem =>
    Ok (append ts timestamp, append spots spot_close,
        append futs futures_close, append prems prem))).

Fixpoint klines_loop (rows : list (kline_row * kline_row)) (acc : klines_result)
    : result klines_result :=
  match rows with
  | [] => Ok acc
  | row :: rows' => bind (klines_step acc row) (klines_loop rows')
  end.

(** [get_historical_klines], given the two decoded responses (a raised
    exception stands for a transport or decoding failure).  Every exception
    raised inside the [try] ends in the [except] branch. *)
Definition get_historical_klines
    (spot_response futures_response : result (list kline_row)) : klines_result :=
  let body :=
    bind spot_response (fun spot_data =>
    bind futures_response (fun futures_data =>
      let min_length := Nat.min (List.length spot_data) (List.length futures_data) in
      klines_loop (combine (firstn min_length spot_data)
                           (firstn min_length futures_data))
                  ([], [], [], []))) in
  match body with
  | Ok r => r
  | Raise _ => ([], [], [], [])
  end.

(** The loop [for item in data] of [get_historical_funding_rates] and of
    [get_historical_open_interest]: the time of the item is converted and
    appended, then the value [stored] of the item. *)
Fixpoint history_loop (stored : Q -> Q) (data : list (Z * Q))
    (acc : list Z * list Q) : result (list Z * list Q) :=
  match data with
  | [] => Ok acc
  | item :: data' =>
      bind (fromtimestamp (fst item)) (fun timestamp =>
        history_loop stored data'
          (append (fst acc) timestamp, append (snd acc) (stored (snd item))))
  end.

(** [get_historical_funding_rates], given the decoded response: items of
    [(fundingTime, fundingRate)].  Every exception raised inside the [try]
    ends in the [except] branch, which returns two empty lists. *)
Definition get_historical_funding_rates (response : result (list (Z * Q)))
    : list Z * list Q :=
  match bind response
          (fun data => history_loop (fun rate => rate * 100) data ([], [])) with
  | Ok history => history
  | Raise _ => ([], [])
  end.

(** ** deepseekmoney.py: the parallel kline collector *)

(** A decoded candle: the eleven fields of a kline row that [fetch_kline]
    reads (indices 0 to 10). *)
Record candle : Type := {
  c_open_time : Z;
  c_open : Q;
  c_high : Q;
  c_low : Q;
  c_close : Q;
  c_volume : Q;
  c_close_time : Z;
  c_quote_volume : Q;
  c_trades : Z;
  c_taker_buy_base_volume : Q;
  c_taker_buy_quote_volume : Q
}.

(** The dictionary [fetch_kline] returns; the two times are kept as the
    millisecond values that the source formats with [strftime]. *)
Record kline : Type := {
  k_symbol : symbol;
  open_time : Z;
  close_time : Z;
  open : Q;
  high : Q;
  low : Q;
  close : Q;
  volume : Q;
  quote_volume : Q;
  trades : Z;
  taker_buy_base_volume : Q;
  taker_buy_quote_volume : Q;
  net_inflow : Q
}.

(** [fetch_kline(symbol)], given the decoded response for that symbol:
    [None] when the request raised or fewer than two candles came back. *)
Definition fetch_kline (response : symbol -> result (list candle))
    (s : symbol) : option kline :=
  match response s with
  | Raise _ => None
  | Ok data =>
      if (List.length data <? 2)%nat then None
      else
        match nth_error data 1 with
        | Some k =>
            Some {| k_symbol := s;
                    open_time := c_open_time k;
                    close_time := c_close_time k;
                    open := c_open k;
                    high := c_high k;
                    low := c_low k;
                    close := c_close k;
                    volume := c_volume k;
                    quote_volume := c_quote_volume k;
                    trades := c_trades k;
                    taker_buy_base_volume := c_taker_buy_base_volume k;
                    taker_buy_quote_volume := c_taker_buy_quote_volume k;
                    net_inflow :=
                      2 * c_taker_buy_quote_volume k - c_quote_volume k |}
        | None => None
        end
  end.

(** [get_klines_parallel(symbols)].  One task is submitted per element of
    [symbols]; [completed] is the order in which [as_completed] yields the
    tasks, each named by its symbol.  A result is appended when it is truthy,
    which a non-empty dictionary always is. *)
Definition get_klines_parallel (response : symbol -> result (list candle))
    (completed : list symbol) : list kline :=
  fold_left
    (fun results s =>
       match fetch_kline response s with
       | Some result => append results result
       | None => results
       end)
    completed [].

(** The entries [get_klines_parallel] is expected to hold: the fetches that
    succeeded, one per submitted symbol. *)
Definition succeeded (response : symbol -> result (list candle))
    (symbols : list symbol) : list kline :=
  flat_map
    (fun s => match fetch_kline response s with Some r => [r] | None => [] end)
    symbols.

(** ** binanceperpsanalysis.py: the limiter and the position collector *)

Record RateLimiter : Type := {
  max_requests : Z;
  time_window : Q;
  requests : list Q
}.

(** [RateLimiter(max_requests, time_window)]. *)
Definition new_limiter (max_requests : Z) (time_window : Q) : RateLimiter :=
  {| max_requests := max_requests; time_window := time_window; requests := [] |}.

Definition set_requests (q : list Q) (self : RateLimiter) : RateLimiter :=
  {| max_requests := max_requests self; time_window := time_window self;
     requests := q |}.

(** The [while] loop of [acquire]: drop entries from the front while they
    are older than [time_window]. *)
Fixpoint evict (current_time time_window : Q) (queue : list Q) : list Q :=
  match queue with
  | [] => []
  | request_time :: rest =>
      if Qltb time_window (current_time - request_time)
      then evict current_time time_window rest
      else queue
  end.

(** [acquire()], given the reading [current_time] of [time.time()].  The
    value is the duration handed to [time.sleep], [0] when it is not called.
    With nothing queued and [max_requests <= 0] the read of [queue[0]]
    raises. *)
Definition acquire (current_time : Q) : M RateLimiter Q :=
  fun self =>
    let queue := evict current_time (time_window self) (requests self) in
    if (max_requests self <=? Z.of_nat (List.length queue))%Z then
      match queue with
      | [] => (Raise IndexError, set_requests queue self)
      | oldest_request :: _ =>
          let sleep_time := oldest_request + time_window self - current_time in
          (Ok (if Qltb 0 sleep_time then sleep_time else 0),
           set_requests (append queue current_time) self)
      end
    else (Ok 0, set_requests (append queue current_time) self).

(** One completed call of [acquire]: the limiter it found, the clock
    reading it took, the moment it returned (the reading plus the time slept)
    and the limiter it left. *)
Record call : Type := {
  before : RateLimiter;
  read_at : Q;
  returned_at : Q;
  after : RateLimiter
}.

(** A sequence of [acquire] calls on one limiter, one per clock reading;
    the sequence ends early if a call raises. *)
Fixpoint acquire_all (clock : list Q) (self : RateLimiter) : list call :=
  match clock with
  | [] => []
  | current_time :: clock' =>
      match acquire current_time self with
      | (Ok slept, self') =>
          {| before := self; read_at := current_time;
             returned_at := current_time + slept; after := self' |}
            :: acquire_all clock' self'
      | (Raise _, _) => []
      end
  end.

(** The recorded timestamps that are less than [time_window] old at [now],
    and those that are at most [time_window] old. *)
Definition younger_than (now time_window : Q) (queue : list Q) : list Q :=
  filter (fun t => Qltb (now - t) time_window) queue.
Definition within_window (now : Q) (self : RateLimiter) : list Q :=
  younger_than now (time_window self) (requests self).
Definition not_older_than_window (now : Q) (self : RateLimiter) : list Q :=
  filter (fun t => Qle_bool (now - t) (time_window self)) (requests self).

(** Each call reads the clock strictly after the previous call returned. *)
Fixpoint clock_advances (previous_return : Q) (calls : list call) : Prop :=
  match calls with
  | [] => True
  | c :: calls' =>
      previous_return < read_at c /\ clock_advances (returned_at c) calls'
  end.

Record position : Type := {
  p_symbol : symbol;
  current_oi : Q;
  historical_oi : Q;
  change : Q;
  change_percentage : Q
}.

(** The record the [except] branch of [get_position_data] returns. *)
Definition zero_position (s : symbol) : position :=
  {| p_symbol := s; current_oi := 0; historical_oi := 0; change := 0;
     change_percentage := 0 |}.

(** [get_position_data(symbol, historical_timestamp)], given the decoded
    [openInterest] of the first response and the [sumOpenInterest] values of
    the second. *)
Definition get_position_data
    (open_interest_response : symbol -> result Q)
    (history_response : symbol -> result (list Q))
    (s : symbol) : position :=
  let body :=
    bind (open_interest_response s) (fun current_oi =>
    bind (history_response s) (fun historical_data =>
      let historical_oi :=
        match historical_data with h :: _ => h | [] => 0 end in
      let change := current_oi - historical_oi in
      bind (if negb (Qeq_bool historical_oi 0)
            then bind (truediv change historical_oi) (fun q => Ok (q * 100))
            else Ok 0)
           (fun change_percentage =>
              Ok {| p_symbol := s; current_oi := current_oi;
                    historical_oi := historical_oi; change := change;
                    change_percentage := change_percentage |}))) in
  match body with
  | Ok p => p
  | Raise _ => zero_position s
  end.

(** The rows [analyze_positions] puts in its data frame: the futures are
    read in submission order, and every record is truthy. *)
Definition analyze_positions
    (open_interest_response : symbol -> result Q)
    (history_response : symbol -> result (list Q))
    (symbols : list symbol) : list position :=
  fold_left
    (fun results s =>
       append results (get_position_data open_interest_response history_response s))
    symbols [].

(** Whether the fetch behind [get_position_data] failed for a symbol. *)
Definition position_fetch_failed
    (open_interest_response : symbol -> result Q)
    (history_response : symbol -> result (list Q))
    (s : symbol) : bool :=
  match open_interest_response s, history_response s with
  | Ok _, Ok _ => false
  | _, _ => true
  end.

(** ** ratemonitor.py: the snapshot file and the poll cycle *)

(** The dictionary [stats] that [run_task] writes and returns. *)
Record stats : Type := {
  timestamp : string;
  highest_rates : list entry;
  lowest_rates : list entry;
  biggest_increases : list entry;
  biggest_decreases : list entry;
  previous_rates : dict Q
}.

(** The pieces [json.dump] hands to [f.write], one after the other. *)
Inductive chunk : Type :=
| BeginObject
| EndObject
| BeginArray
| EndArray
| Key (k : string)
| Str (s : string)
| Num (q : Q).

Definition dump_entries (value_key : string) (l : list entry) : list chunk :=
  BeginArray
    :: flat_map
         (fun e => [BeginObject; Key "symbol"; Str (fst e);
                    Key value_key; Num (snd e); EndObject])
         l
    ++ [EndArray].

Definition dump_rates (d : dict Q) : list chunk :=
  BeginObject :: flat_map (fun e => [Key (fst e); Num (snd e)]) d ++ [EndObject].

(** [json.dump(stats, f, indent=4)] as the sequence of writes it performs. *)
Definition json_dump (s : stats) : list chunk :=
  [BeginObject; Key "timestamp"; Str (timestamp s)]
    ++ Key "highest_rates" :: dump_entries "rate" (highest_rates s)
    ++ Key "lowest_rates" :: dump_entries "rate" (lowest_rates s)
    ++ Key "biggest_increases" :: dump_entries "change" (biggest_increases s)
    ++ Key "biggest_decreases" :: dump_entries "change" (biggest_decreases s)
    ++ Key "previous_rates" :: dump_rates (previous_rates s)
    ++ [EndObject].

(** The content of [data_file]; [None] when the file does not exist. *)
Definition file : Type := option (list chunk).

(** The file holds exactly the snapshot [s]. *)
Definition holds_snapshot (f : file) (s : stats) : Prop := f = Some (json_dump s).

(** The content of the file after [k] steps of
    [with open(data_file, 'w') as f: json.dump(stats, f)]: step 1 is the
    [open], which truncates the file, and each later step writes one chunk.
    Steps beyond the last write leave the complete document.  (The file
    object buffers: several chunks may reach the file at once, so that not
    every step can be observed; the truncation of step 1 always can.) *)
Definition file_after (old : file) (chunks : list chunk) (k : nat) : file :=
  match k with
  | O => old
  | S written => Some (firstn written chunks)
  end.

(** The number of steps of a save that runs to completion. *)
Definition save_steps (chunks : list chunk) : nat := S (List.length chunks).

(** How the write in [run_task] goes: it completes, or an exception is
    raised after [k] steps ([0]: the [open] itself raised). *)
Inductive write_outcome : Type :=
| WriteCompletes
| WriteRaises (k : nat).

(** The [try] block of [run_task]; the [except] branch only prints. *)
Definition save (s : stats) (outcome : write_outcome) (old : file) : file :=
  match outcome with
  | WriteCompletes => file_after old (json_dump s) (save_steps (json_dump s))
  | WriteRaises k => file_after old (json_dump s) k
  end.

Module Tracker.

(** The fields of [BinanceFundingRateTracker] and the file behind
    [self.data_file]. *)
Record t : Type := {
  previous_rates : dict Q;
  current_rates : dict Q;
  data_file : file
}.

End Tracker.

(** [run_task()], given what [get_funding_rates] returned (the empty
    dictionary when it failed), the formatted clock reading and how the
    write goes.  The value is [None] for the early [return]. *)
Definition run_task (fetched : dict Q) (now : string) (outcome : write_outcome)
    (self : Tracker.t) : option stats * Tracker.t :=
  let current_rates := fetched in
  match current_rates with
  | [] =>
      (None,
       {| Tracker.previous_rates := Tracker.previous_rates self;
          Tracker.current_rates := current_rates;
          Tracker.data_file := Tracker.data_file self |})
  | _ :: _ =>
      let highest := get_top_n current_rates 5 true in
      let lowest := get_top_n current_rates 5 false in
      let '(increasing_rates, decreasing_rates) :=
        match Tracker.previous_rates self with
        | [] => ([], [])
        | _ :: _ =>
            (get_biggest_changes current_rates (Tracker.previous_rates self) 5 true,
             get_biggest_changes current_rates (Tracker.previous_rates self) 5 false)
        end in
      let st :=
        {| timestamp := now;
           highest_rates := highest;
           lowest_rates := lowest;
           biggest_increases := increasing_rates;
           biggest_decreases := decreasing_rates;
           previous_rates := current_rates |} in
      (Some st,
       {| Tracker.previous_rates := current_rates;
          Tracker.current_rates := current_rates;
          Tracker.data_file := save st outcome (Tracker.data_file self) |})
  end.





(** ** Properties the theorems speak of *)

(** Two neighbours of a ranking are in the requested order. *)
Definition ranked (reverse : bool) (a b : entry) : Prop :=
  if reverse then snd b <= snd a else snd a <= snd b.

(** The sign of a change matches the requested direction. *)
Definition direction_matches (increasing : bool) (change : Q) : Prop :=
  if increasing then 0 < change else change < 0.

(** The six series of a record have one length. *)
Definition aligned (d : symbol_data) : Prop :=
  List.length (spot_prices d) = List.length (timestamps d) /\
  List.length (futures_prices d) = List.length (timestamps d) /\
  List.length (premiums d) = List.length (timestamps d) /\
  List.length (funding_rates d) = List.length (timestamps d) /\
  List.length (open_interest d) = List.length (timestamps d).

(** No two entries of a mapping carry the same value. *)
Definition values_differ (rates : dict Q) : Prop :=
  forall a b, In a rates -> In b rates -> snd a == snd b -> a = b.

(** Two neighbours of a ranking are in strict order. *)
Definition strictly_ranked (reverse : bool) (a b : entry) : Prop :=
  if reverse then snd b < snd a else snd a < snd b.

(** A row that [get_historical_klines] reads without raising. *)
Definition readable (row : kline_row * kline_row) : Prop :=
  in_datetime_range (fst (fst row)) /\ ~ snd (fst row) == 0.

(** The four lists [get_historical_klines] builds from rows it can read. *)
Definition klines_of (rows : list (kline_row * kline_row)) : klines_result :=
  (map (fun row => (fst (fst row) * 1000)%Z) rows,
   map (fun row => snd (fst row)) rows,
   map (fun row => snd (snd row)) rows,
   map (fun row => (snd (snd row) - snd (fst row)) / snd (fst row) * 100) rows).

(** Two minutes of klines; the spot close of the second minute is [0.0] in
    the first of the two spot responses. *)
Definition zero_spot_klines : list kline_row := [(60000%Z, 2); (120000%Z, 0)].
Definition sample_spot_klines : list kline_row := [(60000%Z, 2); (120000%Z, 4)].
Definition sample_futures_klines : list kline_row := [(60000%Z, 3); (120000%Z, 5)].

(** A mapping in which two symbols carry one rate. *)
Definition tied_rates : dict Q :=
  [("X"%string, 1 # 10000); ("Y"%string, 3 # 10000); ("Z"%string, 1 # 10000)].

(** What one item of [current] contributes to [changes]. *)
Definition contribution (previous : dict Q) (increasing : bool) (item : entry)
    : list entry :=
  match dict_get previous (fst item) with
  | Some prev =>
      let change := snd item - prev in
      if (increasing && Qltb 0 change) || (negb increasing && Qltb change 0)
      then [(fst item, change)]
      else []
  | None => []
  end.


(** The record after the six [append]s of [update_data], before the
    clean-up: a missing funding rate or open interest is replaced by the last
    value of its series, or by [0] when the series is empty. *)
Definition appended (now : Z) (spot futures prem : Q)
    (funding_rate open_interest_now : option Q) (d : symbol_data) : symbol_data :=
  {| timestamps := timestamps d ++ [now];
     spot_prices := spot_prices d ++ [spot];
     futures_prices := futures_prices d ++ [futures];
     premiums := premiums d ++ [prem];
     funding_rates :=
       funding_rates d
         ++ [match funding_rate with
             | Some r => r * 100
             | None => last (funding_rates d) 0
             end];
     open_interest :=
       open_interest d
         ++ [match open_interest_now with
             | Some oi => oi
             | None => last (open_interest d) 0
             end];
     last_funding_rate :=
       match funding_rate with
       | Some r => Some r
       | None => last_funding_rate d
       end |}.

(** The five values [update_data] returns when both prices are there. *)
Definition returned (spot futures prem : Q)
    (funding_rate open_interest_now : option Q) (d : symbol_data) : update_result :=
  (Some spot, Some futures, Some prem,
   match funding_rate with
   | Some r => Some r
   | None => match funding_rates d with [] => Some 0 | _ :: _ => None end
   end,
   Some match open_interest_now with
        | Some oi => oi
        | None => last (open_interest d) 0
        end).

(** A record with empty series, as the session state starts with. *)
Definition empty_data : symbol_data :=
  {| timestamps := []; spot_prices := []; futures_prices := [];
     premiums := []; funding_rates := []; open_interest := [];
     last_funding_rate := None |}.

(** Every series cut at one index, as the clean-up of [update_data] does. *)
Definition cut (start_idx : nat) (d : symbol_data) : symbol_data :=
  {| timestamps := slice_from (timestamps d) start_idx;
     spot_prices := slice_from (spot_prices d) start_idx;
     futures_prices := slice_from (futures_prices d) start_idx;
     premiums := slice_from (premiums d) start_idx;
     funding_rates := slice_from (funding_rates d) start_idx;
     open_interest := slice_from (open_interest d) start_idx;
     last_funding_rate := last_funding_rate d |}.

(** A record with two samples, taken at 0 and at 100 microseconds. *)
Definition sample_data : symbol_data :=
  {| timestamps := [0; 100]%Z; spot_prices := [2; 2]; futures_prices := [3; 3];
     premiums := [50; 50]; funding_rates := [1 # 100; 1 # 100];
     open_interest := [7; 8]; last_funding_rate := Some (1 # 10000) |}.

(** Responses of an exchange that cannot be reached. *)
Definition unreachable_open_interest (s : symbol) : result Q :=
  Raise RequestException.
Definition unreachable_history (s : symbol) : result (list Q) :=
  Raise RequestException.

(** Two snapshots, an older and a newer one. *)
Definition snapshot_a : stats :=
  {| timestamp := "2025-01-01 00:00:00";
     highest_rates := [("A"%string, 1 # 100)];
     lowest_rates := [("A"%string, 1 # 100)];
     biggest_increases := [];
     biggest_decreases := [];
     previous_rates := [("A"%string, 1 # 100)] |}.
Definition snapshot_b : stats :=
  {| timestamp := "2025-01-01 00:05:00";
     highest_rates := [("A"%string, 2 # 100)];
     lowest_rates := [("A"%string, 2 # 100)];
     biggest_increases := [("A"%string, 1 # 100)];
     biggest_decreases := [];
     previous_rates := [("A"%string, 2 # 100)] |}.

(** A tracker that has not polled yet and has no data file. *)
Definition fresh_tracker : Tracker.t :=
  {| Tracker.previous_rates := []; Tracker.current_rates := [];
     Tracker.data_file := None |}.

(** Every call but the first reads the clock strictly after the call before
    it returned. *)
Definition reads_after_returns (calls : list call) : Prop :=
  match calls with
  | [] => True
  | c :: calls' => clock_advances (returned_at c) calls'
  end.

(** After a call returned, at most [max_requests] recorded timestamps are
    less than [time_window] old. *)
Definition window_bounded (c : call) : Prop :=
  (Z.of_nat (List.length (within_window (returned_at c) (after c)))
   <= max_requests (after c))%Z.

(** The timestamps a call keeps after its eviction loop. *)
Definition kept (c : call) : list Q :=
  evict (read_at c) (time_window (before c)) (requests (before c)).

(** What one call of [acquire] does: it keeps the queue from the first
    timestamp on that is not older than [time_window], returns at once when
    fewer than [max_requests] timestamps are kept and otherwise when the
    oldest kept one is exactly [time_window] old, and records the clock
    reading it took on entry. *)
Definition acquire_procedure (c : call) : Prop :=
  requests (after c) = kept c ++ [read_at c] /\
  max_requests (after c) = max_requests (before c) /\
  time_window (after c) = time_window (before c) /\
  ((Z.of_nat (List.length (kept c)) < max_requests (before c))%Z ->
   returned_at c == read_at c) /\
  (forall oldest rest,
      kept c = oldest :: rest ->
      (max_requests (before c) <= Z.of_nat (List.length (kept c)))%Z ->
      returned_at c == oldest + time_window (before c)).


(** What holds of a limiter at the moment [now] between two calls. *)
Definition limiter_inv (now : Q) (self : RateLimiter) : Prop :=
  (Z.of_nat (List.length (within_window now self)) <= max_requests self)%Z /\
  Forall (fun t => t <= now) (requests self) /\
  StronglySorted Qle (requests self).

(** ** Further properties: ranking *)

(** The entries of a list whose value equals [v]. *)
Definition with_value (v : Q) (l : list entry) : list entry :=
  filter (fun e => Qeq_bool (snd e) v) l.

(** ** ratemonitor.py: fetching the rates *)

(** [s.endswith(suffix)]: some tail of [s] is [suffix]. *)
Fixpoint endswith (s suffix : string) : bool :=
  String.eqb s suffix
  || match s with
     | EmptyString => false
     | String _ s' => endswith s' suffix
     end.

(** An item of the decoded [premiumIndex] response: its ['symbol'] and what
    [float(item['lastFundingRate'])] gives, which is only evaluated for the
    symbols that pass the test. *)
Record index_item : Type := {
  item_symbol : string;
  lastFundingRate : result Q
}.

(** The body of the loop of [get_funding_rates]. *)
Definition funding_rates_step (funding_rates : dict Q) (item : index_item)
    : result (dict Q) :=
  let symbol := item_symbol item in
  if endswith symbol "USDT" then
    bind (lastFundingRate item) (fun funding_rate =>
      Ok (dict_set funding_rates symbol funding_rate))
  else Ok funding_rates.

Fixpoint funding_rates_loop (data : list index_item) (funding_rates : dict Q)
    : result (dict Q) :=
  match data with
  | [] => Ok funding_rates
  | item :: data' =>
      bind (funding_rates_step funding_rates item) (funding_rates_loop data')
  end.

(** [get_funding_rates()], given the decoded response: any exception ends
    in the [except] branch, which returns the empty dictionary.  A response
    that is no list of items with a ['symbol'] raises in the loop and so
    counts as a response that raised. *)
Definition get_funding_rates (response : result (list index_item)) : dict Q :=
  match bind response (fun data => funding_rates_loop data []) with
  | Ok funding_rates => funding_rates
  | Raise _ => []
  end.

(** One scheduled poll: [run_task] on what [get_funding_rates] returns. *)
Definition poll_exchange (response : result (list index_item)) (now : string)
    (outcome : write_outcome) (self : Tracker.t) : option stats * Tracker.t :=
  run_task (get_funding_rates response) now outcome self.

(** The items of the response that [get_funding_rates] reads the rate of. *)
Definition usdt_items (data : list index_item) : list index_item :=
  filter (fun item => endswith (item_symbol item) "USDT") data.

(** A response with a rate that cannot be read on a symbol that is skipped
    and sound rates on two USDT symbols, one of them listed twice. *)
Definition sample_index : list index_item :=
  [{| item_symbol := "BTCUSDT"; lastFundingRate := Ok (1 # 10000) |};
   {| item_symbol := "BTCUSD_PERP"; lastFundingRate := Raise RequestException |};
   {| item_symbol := "ETHUSDT"; lastFundingRate := Ok (- (2 # 10000)) |};
   {| item_symbol := "BTCUSDT"; lastFundingRate := Ok (3 # 10000) |}].

(** ** Further properties: the limiter *)

(** The limiter a sequence of calls leaves behind. *)
Definition limiter_after (calls : list call) (self : RateLimiter) : RateLimiter :=
  last (map after calls) self.

(** The time a call spent sleeping. *)
Definition slept (c : call) : Q := returned_at c - read_at c.

(** ** CryptoRateTradeMonitor.py: loading the history *)

(** [get_historical_open_interest], given the decoded response: items of
    [(timestamp, sumOpenInterest)]. *)
Definition get_historical_open_interest (response : result (list (Z * Q)))
    : list Z * list Q :=
  match bind response (fun data => history_loop (fun oi => oi) data ([], [])) with
  | Ok history => history
  | Raise _ => ([], [])
  end.

(** The search loop of [load_historical_data]: the index of the entry of
    [stamps] closest to [ts]; [min_diff] starts as [float('inf')], written
    [None], and [i] is the index [enumerate] is at. *)
Fixpoint closest_loop (ts : Z) (stamps : list Z) (i closest_idx : nat)
    (min_diff : option Z) : nat :=
  match stamps with
  | [] => closest_idx
  | fts :: stamps' =>
      let diff := Z.abs (ts - fts) in
      if match min_diff with
         | None => true
         | Some m => (diff <? m)%Z
         end
      then closest_loop ts stamps' (S i) i (Some diff)
      else closest_loop ts stamps' (S i) closest_idx min_diff
  end.

Definition closest (ts : Z) (stamps : list Z) : nat :=
  closest_loop ts stamps 0 0 None.

(** The list [mapped_funding_rates] (and [mapped_open_interests]): for each
    timestamp the value recorded closest to it, [0] when the index found is
    out of range. *)
Definition map_to_timestamps (timestamps stamps : list Z) (values : list Q)
    : list Q :=
  map (fun ts =>
         let closest_idx := closest ts stamps in
         if (closest_idx <? List.length values)%nat
         then nth closest_idx values 0
         else 0)
      timestamps.

(** The series built from a history: mapped values, or zeros when the
    history is empty. *)
Definition history_series (timestamps : list Z) (history : list Z * list Q)
    : list Q :=
  match snd history with
  | [] => repeat 0 (List.length timestamps)
  | _ :: _ => map_to_timestamps timestamps (fst history) (snd history)
  end.

(** [l[-1] = v], which the source guards by the test that [l] is not
    empty. *)
Definition set_last (l : list Q) (v : Q) : list Q :=
  match l with
  | [] => l
  | _ :: _ => removelast l ++ [v]
  end.

(** The record of the session state with the flag that
    [load_historical_data] reads and sets. *)
Record session_data : Type := {
  series : symbol_data;
  historical_data_loaded : bool
}.

(** [load_historical_data(symbol, symbol_data)], given the decoded
    responses of the three history requests and what the two current
    fetches returned. *)
Definition load_historical_data
    (spot_response futures_response : result (list kline_row))
    (funding_response oi_response : result (list (Z * Q)))
    (funding_rate open_interest_now : option Q)
    (s : session_data) : bool * session_data :=
  if negb (historical_data_loaded s) then
    let '(timestamps, spot_prices, futures_prices, premiums) :=
      get_historical_klines spot_response futures_response in
    let funding_history := get_historical_funding_rates funding_response in
    let oi_history := get_historical_open_interest oi_response in
    match timestamps with
    | _ :: _ =>
        let funding_rates := history_series timestamps funding_history in
        let open_interests := history_series timestamps oi_history in
        (true,
         {| series :=
              {| timestamps := timestamps;
                 spot_prices := spot_prices;
                 futures_prices := futures_prices;
                 premiums := premiums;
                 funding_rates :=
                   match funding_rate with
                   | Some r => set_last funding_rates (r * 100)
                   | None => funding_rates
                   end;
                 open_interest :=
                   match open_interest_now with
                   | Some oi => set_last open_interests oi
                   | None => open_interests
                   end;
                 last_funding_rate :=
                   match funding_rate with
                   | Some r => Some r
                   | None => last_funding_rate (series s)
                   end |};
            historical_data_loaded := true |})
    | [] => (false, s)
    end
  else (true, s).

(** The inputs of one call of [update_data]. *)
Record sample : Type := {
  sample_now : Z;
  sample_spot : option Q;
  sample_futures : option Q;
  sample_funding : option Q;
  sample_open_interest : option Q
}.

(** Successive calls of [update_data] on one record, one per refresh of the
    page; a call that raises leaves the record as it found it. *)
Definition update_all (samples : list sample) (d : symbol_data) : symbol_data :=
  fold_left
    (fun d x =>
       snd (update_data (sample_now x) (sample_spot x) (sample_futures x)
                        (sample_funding x) (sample_open_interest x) d))
    samples d.

(** The distance of two [datetime] values. *)
Definition distance (t t' : Z) : Z := Z.abs (t - t').

(** The oldest time [update_data] keeps when called at [now]. *)
Definition cutoff (now : Z) : Z := (now - timedelta_hours HOURS_TO_DISPLAY)%Z.

(** ** ratemonitor.py: reading the snapshot file back *)

Set Warnings "-register-all".

(** A decoded JSON document; an object is the dictionary [json.load] builds,
    in which a repeated key keeps its last value. *)
Inductive json : Type :=
| JObject (members : list (string * json))
| JArray (items : list json)
| JString (s : string)
| JNumber (q : Q).

(** A container the decoder is inside of: an array with the items read so
    far, or an object with its members and the key still waiting for its
    value. *)
Inductive frame : Type :=
| InArray (items : list json)
| InObject (members : dict json) (key : option string).

(** The decoder: the open containers, innermost first, and the document
    once it is complete. *)
Record decoder : Type := {
  stack : list frame;
  document : option json
}.

Definition decoder_start : decoder := {| stack := []; document := None |}.

(** A value [v] is complete: it goes into the innermost open container, or
    is the document when none is open. *)
Definition put_value (v : json) (outer : list frame) : option decoder :=
  match outer with
  | [] => Some {| stack := []; document := Some v |}
  | InArray items :: outer' =>
      Some {| stack := InArray (items ++ [v]) :: outer'; document := None |}
  | InObject members (Some k) :: outer' =>
      Some {| stack := InObject (dict_set members k v) None :: outer';
              document := None |}
  | InObject _ None :: _ => None
  end.

(** Whether a value may start here. *)
Definition expects_value (outer : list frame) : bool :=
  match outer with
  | [] => true
  | InArray _ :: _ => true
  | InObject _ (Some _) :: _ => true
  | InObject _ None :: _ => false
  end.

(** One chunk; [None] is the [JSONDecodeError] of a malformed document. *)
Definition decode_step (p : decoder) (c : chunk) : option decoder :=
  match document p with
  | Some _ => None
  | None =>
      match c with
      | BeginObject =>
          if expects_value (stack p)
          then Some {| stack := InObject [] None :: stack p; document := None |}
          else None
      | BeginArray =>
          if expects_value (stack p)
          then Some {| stack := InArray [] :: stack p; document := None |}
          else None
      | EndObject =>
          match stack p with
          | InObject members None :: outer => put_value (JObject members) outer
          | _ => None
          end
      | EndArray =>
          match stack p with
          | InArray items :: outer => put_value (JArray items) outer
          | _ => None
          end
      | Key k =>
          match stack p with
          | InObject members None :: outer =>
              Some {| stack := InObject members (Some k) :: outer;
                      document := None |}
          | _ => None
          end
      | Str s => put_value (JString s) (stack p)
      | Num q => put_value (JNumber q) (stack p)
      end
  end.

Fixpoint decode (chunks : list chunk) (p : decoder) : option decoder :=
  match chunks with
  | [] => Some p
  | c :: chunks' =>
      match decode_step p c with
      | Some p' => decode chunks' p'
      | None => None
      end
  end.

(** [json.load(f)] on the content of the file; [None] when it raises. *)
Definition json_load (chunks : list chunk) : option json :=
  match decode chunks decoder_start with
  | Some {| stack := []; document := Some v |} => Some v
  | _ => None
  end.

(** An object of numbers as a mapping of rates. *)
Fixpoint as_rates (members : dict json) : option (dict Q) :=
  match members with
  | [] => Some []
  | (k, JNumber q) :: members' =>
      match as_rates members' with
      | Some d => Some ((k, q) :: d)
      | None => None
      end
  | _ => None
  end.

(** What the constructor finds in the file: a baseline, nothing (no file, a
    file that does not decode, a document that is no object or has no
    ['previous_rates']; the exceptions are caught), or a ['previous_rates']
    that is no mapping of numbers, which the source stores as it is. *)
Inductive found : Type :=
| Baseline (rates : dict Q)
| NoBaseline
| Untyped (v : json).

Definition find_previous_rates (f : file) : found :=
  match f with
  | None => NoBaseline
  | Some chunks =>
      match json_load chunks with
      | Some (JObject data) =>
          match dict_get data "previous_rates" with
          | Some (JObject rates) =>
              match as_rates rates with
              | Some d => Baseline d
              | None => Untyped (JObject rates)
              end
          | Some v => Untyped v
          | None => NoBaseline
          end
      | Some _ => NoBaseline
      | None => NoBaseline
      end
  end.

(** [BinanceFundingRateTracker(data_file)]; the typed record has no place
    for an [Untyped] value, for which there is no tracker here. *)
Definition init (data_file : file) : option Tracker.t :=
  match find_previous_rates data_file with
  | Baseline rates =>
      Some {| Tracker.previous_rates := rates; Tracker.current_rates := [];
              Tracker.data_file := data_file |}
  | NoBaseline =>
      Some {| Tracker.previous_rates := []; Tracker.current_rates := [];
              Tracker.data_file := data_file |}
  | Untyped _ => None
  end.

(** The decoded form of the entries and rates that [json_dump] writes. *)
Definition entry_json (value_key : string) (e : entry) : json :=
  JObject (dict_set (dict_set [] "symbol" (JString (fst e)))
                    value_key (JNumber (snd e))).

Definition rates_json (d : dict Q) (members : dict json) : dict json :=
  fold_left (fun m e => dict_set m (fst e) (JNumber (snd e))) d members.

(** The document [json.load] returns for a snapshot written by
    [json_dump]. *)
Definition stats_json (s : stats) : json :=
  JObject
    (dict_set
       (dict_set
          (dict_set
             (dict_set
                (dict_set
                   (dict_set [] "timestamp" (JString (timestamp s)))
                   "highest_rates"
                   (JArray (map (entry_json "rate") (highest_rates s))))
                "lowest_rates"
                (JArray (map (entry_json "rate") (lowest_rates s))))
             "biggest_increases"
             (JArray (map (entry_json "change") (biggest_increases s))))
          "biggest_decreases"
          (JArray (map (entry_json "change") (biggest_decreases s))))
       "previous_rates" (JObject (rates_json (previous_rates s) []))).

(** A candle with a quote volume of 20, of which 8 bought by takers. *)
Definition sample_candle : candle :=
  {| c_open_time := 0; c_open := 1; c_high := 2; c_low := 1; c_close := 2;
     c_volume := 10; c_close_time := 1; c_quote_volume := 20;
     c_trades := 3; c_taker_buy_base_volume := 4;
     c_taker_buy_quote_volume := 8 |}.

(** * Proofs *)

(** ** Order on rates *)

Lemma Qltb_true (x y : Q) : Qltb x y = true <-> x < y.
Proof.
  unfold Qltb. rewrite negb_true_iff. split; intro H.
  - apply Qnot_le_lt. intro Hle. apply Qle_bool_iff in Hle. congruence.
  - destruct (Qle_bool y x) eqn:E; [|reflexivity].
    apply Qle_bool_iff in E. exfalso. exact (Qlt_not_le _ _ H E).
Qed.

Lemma Qltb_false (x y : Q) : Qltb x y = false <-> y <= x.
Proof.
  unfold Qltb. rewrite negb_false_iff. apply Qle_bool_iff.
Qed.

(** ** Slices *)

Lemma slice_to_length (A : Type) (l : list A) (n : Z) :
  (0 <= n)%Z -> (Z.of_nat (List.length (slice_to l n)) <= n)%Z.
Proof.
  intro Hn. unfold slice_to.
  destruct (Z.ltb_spec n 0); [lia|].
  rewrite length_firstn. lia.
Qed.

Lemma slice_to_all (A : Type) (l : list A) (n : Z) :
  (Z.of_nat (List.length l) <= n)%Z -> slice_to l n = l.
Proof.
  intro Hn. unfold slice_to.
  destruct (Z.ltb_spec n 0); [lia|].
  apply firstn_all2. lia.
Qed.

Lemma slice_to_prefix (A : Type) (l : list A) (n : Z) :
  exists k, slice_to l n = firstn k l.
Proof.
  unfold slice_to. destruct (n <? 0)%Z; eauto.
Qed.

Lemma In_firstn (A : Type) (k : nat) (l : list A) (x : A) :
  In x (firstn k l) -> In x l.
Proof.
  intro H. rewrite <- (firstn_skipn k l). apply in_or_app. now left.
Qed.

Lemma slice_to_In (A : Type) (l : list A) (n : Z) (x : A) :
  In x (slice_to l n) -> In x l.
Proof.
  destruct (slice_to_prefix l n) as [k ->]. apply In_firstn.
Qed.

Lemma StronglySorted_firstn (A : Type) (R : A -> A -> Prop) (k : nat) (l : list A) :
  StronglySorted R l -> StronglySorted R (firstn k l).
Proof.
  intro H. revert k. induction H as [|a l Hl IH Ha]; intro k.
  - rewrite firstn_nil. constructor.
  - destruct k as [|k]; simpl; constructor.
    + apply IH.
    + rewrite Forall_forall in *. intros x Hx. apply Ha.
      eapply In_firstn; eassumption.
Qed.

(** ** The stable sort *)

Section SortFacts.
Variable A : Type.
Variable key : A -> Q.

Let ascending (a b : A) : Prop := key a <= key b.
Let descending (a b : A) : Prop := key b <= key a.

Lemma insert_perm (x : A) (l : list A) : Permutation (insert key x l) (x :: l).
Proof.
  induction l as [|y l IH]; simpl.
  - apply Permutation_refl.
  - destruct (Qltb (key y) (key x)).
    + rewrite IH. apply perm_swap.
    + apply Permutation_refl.
Qed.

Lemma stable_sort_perm (l : list A) : Permutation (stable_sort key l) l.
Proof.
  induction l as [|x l IH]; simpl.
  - constructor.
  - rewrite insert_perm. now constructor.
Qed.

Lemma sorted_perm (l : list A) (reverse : bool) :
  Permutation (sorted key l reverse) l.
Proof.
  unfold sorted. destruct reverse.
  - rewrite <- Permutation_rev, stable_sort_perm, <- Permutation_rev.
    apply Permutation_refl.
  - apply stable_sort_perm.
Qed.

Lemma insert_ascending (x : A) (l : list A) :
  StronglySorted ascending l -> StronglySorted ascending (insert key x l).
Proof.
  induction 1 as [|y l Hl IH Hy]; simpl.
  - repeat constructor.
  - destruct (Qltb (key y) (key x)) eqn:E.
    + constructor; [exact IH|].
      apply (Permutation_Forall (Permutation_sym (insert_perm x l))).
      constructor; [|exact Hy].
      apply Qltb_true in E. unfold ascending. lra.
    + apply Qltb_false in E.
      constructor; [constructor; assumption|].
      constructor; [exact E|].
      rewrite Forall_forall in *. intros z Hz. specialize (Hy z Hz).
      unfold ascending in *. lra.
Qed.

Lemma stable_sort_ascending (l : list A) :
  StronglySorted ascending (stable_sort key l).
Proof.
  induction l as [|x l IH]; simpl.
  - constructor.
  - now apply insert_ascending.
Qed.

Lemma StronglySorted_snoc (R : A -> A -> Prop) (l : list A) (x : A) :
  StronglySorted R l -> Forall (fun y => R y x) l -> StronglySorted R (l ++ [x]).
Proof.
  induction 1 as [|a l Hl IH Ha]; intro Hx; simpl.
  - repeat constructor.
  - inversion Hx; subst. constructor.
    + now apply IH.
    + apply Forall_app. split; [exact Ha|]. now repeat constructor.
Qed.

Lemma rev_descending (l : list A) :
  StronglySorted ascending l -> StronglySorted descending (rev l).
Proof.
  induction 1 as [|a l Hl IH Ha]; simpl.
  - constructor.
  - apply StronglySorted_snoc; [exact IH|].
    apply Forall_rev. exact Ha.
Qed.

Lemma sorted_ordered (l : list A) (reverse : bool) :
  StronglySorted (if reverse then descending else ascending)
                 (sorted key l reverse).
Proof.
  unfold sorted. destruct reverse.
  - apply rev_descending, stable_sort_ascending.
  - apply stable_sort_ascending.
Qed.
End SortFacts.

(** ** Dictionaries *)

Lemma dict_get_In (V : Type) (d : dict V) (k : string) (v : V) :
  dict_get d k = Some v -> In (k, v) d.
Proof.
  induction d as [|[k' v'] d IH]; simpl; [discriminate|].
  destruct (String.eqb_spec k k') as [->|Hne].
  - intros [= ->]. now left.
  - intro H. right. now apply IH.
Qed.

Lemma In_dict_get (V : Type) (d : dict V) (k : string) (v : V) :
  dict_wf d -> In (k, v) d -> dict_get d k = Some v.
Proof.
  unfold dict_wf, keys. induction d as [|[k' v'] d IH]; simpl; [tauto|].
  intros Hwf [Heq|Hin]; inversion Hwf as [|? ? Hnotin Hwf']; subst.
  - injection Heq as -> ->. now rewrite String.eqb_refl.
  - destruct (String.eqb_spec k k') as [->|Hne].
    + exfalso. apply Hnotin. change k' with (fst (k', v)). now apply in_map.
    + now apply IH.
Qed.

Lemma dict_set_fresh (V : Type) (d : dict V) (k : string) (v : V) :
  ~ In k (keys d) -> dict_set d k v = d ++ [(k, v)].
Proof.
  unfold keys. induction d as [|[k' v'] d IH]; simpl; intro H; [reflexivity|].
  destruct (String.eqb_spec k k') as [->|Hne]; [tauto|].
  f_equal. apply IH. tauto.
Qed.

Lemma dict_wf_NoDup (V : Type) (d : dict V) : dict_wf d -> NoDup d.
Proof. apply NoDup_map_inv. Qed.

(** ** get_biggest_changes *)

Lemma direction_test (increasing : bool) (change : Q) :
  (increasing && Qltb 0 change) || (negb increasing && Qltb change 0) = true
  <-> direction_matches increasing change.
Proof.
  unfold direction_matches. destruct increasing; simpl.
  - rewrite orb_false_r. apply Qltb_true.
  - apply Qltb_true.
Qed.

Lemma changes_fold (previous : dict Q) (increasing : bool) (rest acc : dict Q) :
  NoDup (keys rest) ->
  (forall k, In k (keys acc) -> ~ In k (keys rest)) ->
  fold_left (changes_step previous increasing) rest acc
  = acc ++ flat_map (contribution previous increasing) rest.
Proof.
  revert acc. induction rest as [|[s rate] rest IH]; intros acc Hnd Hdisj; simpl.
  - now rewrite app_nil_r.
  - inversion Hnd as [|? ? Hs Hnd']; subst.
    assert (Hfresh : ~ In s (keys acc)).
    { intro Hin. apply (Hdisj s Hin). now left. }
    unfold contribution at 1. simpl.
    destruct (dict_get previous s) as [prev|].
    + destruct (_ || _).
      * rewrite dict_set_fresh by exact Hfresh.
        rewrite IH; [now rewrite <- app_assoc|exact Hnd'|].
        intros k Hk. unfold keys in Hk. rewrite map_app in Hk.
        apply in_app_or in Hk. destruct Hk as [Hk|[<-|[]]]; [|exact Hs].
        intro Hr. apply (Hdisj k Hk). now right.
      * simpl. apply IH; [exact Hnd'|].
        intros k Hk Hr. apply (Hdisj k Hk). now right.
    + simpl. apply IH; [exact Hnd'|].
      intros k Hk Hr. apply (Hdisj k Hk). now right.
Qed.

Lemma changes_of_flat_map (current previous : dict Q) (increasing : bool) :
  dict_wf current ->
  changes_of current previous increasing
  = flat_map (contribution previous increasing) current.
Proof.
  intro Hwf. unfold changes_of. rewrite changes_fold; auto.
Qed.

Lemma changes_of_spec (current previous : dict Q) (increasing : bool) :
  dict_wf current ->
  forall s c,
    In (s, c) (changes_of current previous increasing) <->
    exists rate prev,
      dict_get current s = Some rate /\ dict_get previous s = Some prev /\
      c = rate - prev /\ direction_matches increasing c.
Proof.
  intros Hwf s c. rewrite changes_of_flat_map by exact Hwf.
  rewrite in_flat_map. split.
  - intros [[s' rate] [Hin Hc]]. unfold contribution in Hc. simpl in Hc.
    destruct (dict_get previous s') as [prev|] eqn:Hp; [|contradiction].
    destruct (_ || _) eqn:Hd; [|contradiction].
    destruct Hc as [[= <- <-]|[]].
    exists rate, prev. repeat split; auto.
    + now apply In_dict_get.
    + now apply direction_test.
  - intros (rate & prev & Hc & Hp & -> & Hd).
    exists (s, rate). split; [now apply dict_get_In|].
    unfold contribution. simpl. rewrite Hp.
    apply direction_test in Hd. rewrite Hd. now left.
Qed.

Lemma direction_nonzero (increasing : bool) (c : Q) :
  direction_matches increasing c -> ~ c == 0.
Proof.
  unfold direction_matches. destruct increasing; intros H E; rewrite E in H;
    exact (Qlt_irrefl 0 H).
Qed.

(** C2.  [get_biggest_changes] builds its candidates from exactly the symbols
    that are keys of both [current] and [previous] and whose change
    [current[symbol] - previous[symbol]] has the requested sign; what it
    returns is taken from these candidates (all of them once [n] reaches
    their number), so every returned change is strictly positive when
    [increasing] and strictly negative otherwise, and a symbol whose change
    equals 0 is returned for neither direction. *)
Theorem get_biggest_changes_sign (current previous : dict Q) (n : Z)
    (increasing : bool) :
  dict_wf current ->
  (forall s c,
      In (s, c) (changes_of current previous increasing) <->
      exists rate prev,
        dict_get current s = Some rate /\ dict_get previous s = Some prev /\
        c = rate - prev /\ direction_matches increasing c) /\
  (forall e,
      In e (get_biggest_changes current previous n increasing) ->
      In e (changes_of current previous increasing)) /\
  ((Z.of_nat (List.length (changes_of current previous increasing)) <= n)%Z ->
   Permutation (get_biggest_changes current previous n increasing)
               (changes_of current previous increasing)) /\
  (forall s c,
      In (s, c) (get_biggest_changes current previous n increasing) ->
      direction_matches increasing c /\ ~ c == 0) /\
  (forall s rate prev,
      dict_get current s = Some rate -> dict_get previous s = Some prev ->
      rate - prev == 0 ->
      forall c, ~ In (s, c) (get_biggest_changes current previous n increasing)).
Proof.
  intro Hwf.
  assert (Hsub : forall e,
             In e (get_biggest_changes current previous n increasing) ->
             In e (changes_of current previous increasing)).
  { intros e He. unfold get_biggest_changes in He.
    apply slice_to_In in He.
    eapply Permutation_in; [apply sorted_perm|exact He]. }
  split; [now apply changes_of_spec|].
  split; [exact Hsub|].
  split.
  { intro Hn. unfold get_biggest_changes. rewrite slice_to_all.
    - apply sorted_perm.
    - now rewrite (Permutation_length (sorted_perm _ _ _)). }
  split.
  - intros s c Hin. apply Hsub in Hin.
    apply (changes_of_spec previous increasing Hwf) in Hin.
    destruct Hin as (rate & prev & _ & _ & _ & Hd).
    split; [exact Hd|]. eapply direction_nonzero; eassumption.
  - intros s rate prev Hc Hp Hz c Hin. apply Hsub in Hin.
    apply (changes_of_spec previous increasing Hwf) in Hin.
    destruct Hin as (rate' & prev' & Hc' & Hp' & -> & Hd).
    rewrite Hc in Hc'. rewrite Hp in Hp'.
    injection Hc' as <-. injection Hp' as <-.
    exact (direction_nonzero _ Hd Hz).
Qed.

Lemma get_biggest_changes_sign_witness :
  dict_wf scenario_current /\
  forall s c,
    In (s, c) (get_biggest_changes scenario_current scenario_previous 2 true) ->
    direction_matches true c /\ ~ c == 0.
Proof.
  assert (Hwf : dict_wf scenario_current).
  { unfold dict_wf, keys. simpl.
    repeat constructor; simpl; intuition discriminate. }
  split; [exact Hwf|].
  exact (proj1 (proj2 (proj2 (proj2
    (get_biggest_changes_sign scenario_previous 2 true Hwf))))).
Defined.

(** ** get_top_n *)

Lemma ranked_sorted (rates : dict Q) (reverse : bool) :
  StronglySorted (ranked reverse) (sorted (@snd symbol Q) rates reverse).
Proof.
  generalize (sorted_ordered (@snd symbol Q) rates reverse).
  unfold ranked. destruct reverse; exact (fun H => H).
Qed.

Lemma StronglySorted_strict (reverse : bool) (l : list entry) :
  NoDup l -> values_differ l ->
  StronglySorted (ranked reverse) l -> StronglySorted (strictly_ranked reverse) l.
Proof.
  intros Hnd Hdiff Hs. induction Hs as [|a l Hl IH Ha].
  - constructor.
  - inversion Hnd as [|? ? Hnotin Hnd']; subst. constructor.
    + apply IH; [exact Hnd'|].
      intros x y Hx Hy. apply Hdiff; now right.
    + rewrite Forall_forall in *. intros b Hb. specialize (Ha b Hb).
      assert (Hne : ~ snd a == snd b).
      { intro E. apply Hnotin.
        rewrite (Hdiff a b (or_introl eq_refl) (or_intror Hb) E). exact Hb. }
      unfold ranked, strictly_ranked in *. destruct reverse.
      * apply Qle_lteq in Ha. destruct Ha as [Ha|Ha]; [exact Ha|].
        exfalso. apply Hne. now symmetry.
      * apply Qle_lteq in Ha. destruct Ha as [Ha|Ha]; [exact Ha|tauto].
Qed.

Lemma NoDup_firstn (A : Type) (k : nat) (l : list A) :
  NoDup l -> NoDup (firstn k l).
Proof.
  intro H. rewrite <- (firstn_skipn k l) in H.
  exact (NoDup_app_remove_r _ _ H).
Qed.

Lemma strictly_ranked_values_differ (reverse : bool) (l : list entry) :
  StronglySorted (strictly_ranked reverse) l -> values_differ l.
Proof.
  intro Hs. induction Hs as [|x l Hl IH Hx]; intros a b Ha Hb E.
  - destruct Ha.
  - rewrite Forall_forall in Hx.
    destruct Ha as [<-|Ha], Hb as [<-|Hb].
    + reflexivity.
    + exfalso. specialize (Hx b Hb). unfold strictly_ranked in Hx.
      destruct reverse; rewrite E in Hx; exact (Qlt_irrefl _ Hx).
    + exfalso. specialize (Hx a Ha). unfold strictly_ranked in Hx.
      destruct reverse; rewrite E in Hx; exact (Qlt_irrefl _ Hx).
    + now apply IH.
Qed.

(** C3.  For [n >= 0], [get_top_n] returns at most [n] entries, ordered by
    value in the requested direction: descending when [reverse], ascending
    otherwise.  The order is not strict in general: entries that share a
    value follow one another.  For a dictionary it is strict exactly when no
    two of the returned entries share a value.  When [n] is at least the size
    of the mapping the output is a rearrangement of the items of the
    mapping: every entry, exactly once. *)
Theorem get_top_n_ranked (rates : dict Q) (n : Z) (reverse : bool) :
  (0 <= n)%Z ->
  (Z.of_nat (List.length (get_top_n rates n reverse)) <= n)%Z /\
  StronglySorted (ranked reverse) (get_top_n rates n reverse) /\
  (dict_wf rates ->
   (StronglySorted (strictly_ranked reverse) (get_top_n rates n reverse) <->
    values_differ (get_top_n rates n reverse))) /\
  ((Z.of_nat (List.length rates) <= n)%Z ->
   Permutation (get_top_n rates n reverse) rates).
Proof.
  intro Hn. unfold get_top_n.
  assert (Hs : StronglySorted (ranked reverse)
                 (slice_to (sorted (@snd symbol Q) rates reverse) n)).
  { destruct (slice_to_prefix (sorted (@snd symbol Q) rates reverse) n) as [k ->].
    apply StronglySorted_firstn, ranked_sorted. }
  split; [now apply slice_to_length|].
  split; [exact Hs|].
  split.
  - intro Hwf. split; [apply strictly_ranked_values_differ|].
    intro Hdiff. apply StronglySorted_strict; [|exact Hdiff|exact Hs].
    destruct (slice_to_prefix (sorted (@snd symbol Q) rates reverse) n) as [k ->].
    apply NoDup_firstn.
    apply (Permutation_NoDup (Permutation_sym (sorted_perm _ rates reverse))).
    now apply dict_wf_NoDup.
  - intro Hall. rewrite slice_to_all.
    + apply sorted_perm.
    + now rewrite (Permutation_length (sorted_perm _ _ _)).
Qed.

Lemma get_top_n_ranked_witness :
  (0 <= 2)%Z /\
  (Z.of_nat (List.length (get_top_n scenario_current 2 true)) <= 2)%Z /\
  StronglySorted (ranked true) (get_top_n scenario_current 2 true).
Proof.
  assert (H : (0 <= 2)%Z) by lia.
  split; [exact H|].
  split.
  - exact (proj1 (get_top_n_ranked scenario_current true H)).
  - exact (proj1 (proj2 (get_top_n_ranked scenario_current true H))).
Defined.

(** With the rate 0.0001 on both X and Z, neither the descending nor the
    ascending ranking is in strict order: the two entries follow one
    another. *)
Lemma get_top_n_ties_not_strict :
  dict_wf tied_rates /\
  get_top_n tied_rates 3 true
  = [("Y"%string, 3 # 10000); ("X"%string, 1 # 10000); ("Z"%string, 1 # 10000)]
  /\
  get_top_n tied_rates 2 false
  = [("X"%string, 1 # 10000); ("Z"%string, 1 # 10000)] /\
  ~ StronglySorted (strictly_ranked true) (get_top_n tied_rates 3 true) /\
  ~ StronglySorted (strictly_ranked false) (get_top_n tied_rates 2 false).
Proof.
  assert (Ed : get_top_n tied_rates 3 true
               = [("Y"%string, 3 # 10000); ("X"%string, 1 # 10000);
                  ("Z"%string, 1 # 10000)]) by (vm_compute; reflexivity).
  assert (Ea : get_top_n tied_rates 2 false
               = [("X"%string, 1 # 10000); ("Z"%string, 1 # 10000)])
    by (vm_compute; reflexivity).
  split.
  { unfold dict_wf, tied_rates, keys. cbn [map fst].
    repeat constructor; cbn [In]; intuition discriminate. }
  split; [exact Ed|]. split; [exact Ea|].
  rewrite Ed, Ea. split; intro H.
  - inversion H as [|? ? H' _]; subst. inversion H' as [|? ? _ Hx]; subst.
    inversion Hx as [|? ? Hlt _]; subst. cbn in Hlt. discriminate Hlt.
  - inversion H as [|? ? _ Hx]; subst.
    inversion Hx as [|? ? Hlt _]; subst. cbn in Hlt. discriminate Hlt.
Qed.

(** Entries with one value keep the order of the mapping, for both
    directions. *)
Example get_top_n_ties :
  get_top_n [("X"%string, 1 # 10000); ("Y"%string, 3 # 10000);
             ("Z"%string, 1 # 10000)] 3 true
  = [("Y"%string, 3 # 10000); ("X"%string, 1 # 10000); ("Z"%string, 1 # 10000)]
  /\
  get_top_n [("X"%string, 1 # 10000); ("Y"%string, 3 # 10000);
             ("Z"%string, 1 # 10000)] 2 false
  = [("X"%string, 1 # 10000); ("Z"%string, 1 # 10000)].
Proof. split; vm_compute; reflexivity. Qed.

(** ** The end-to-end scenario *)

(** C1.  With current rates [{A: 0.02, B: -0.01, C: 0.005}], previous rates
    [{A: 0.01, B: -0.01, C: 0.01}] and [n = 2], [get_top_n] gives
    [[A(0.02), C(0.005)]] for the highest and [[B(-0.01), C(0.005)]] for the
    lowest rates, and [get_biggest_changes] gives [[A(+0.01)]] for the
    increases and [[C(-0.005)]] for the decreases. *)
Theorem scenario_rankings :
  get_top_n scenario_current 2 true
    = [("A"%string, 2 # 100); ("C"%string, 5 # 1000)] /\
  get_top_n scenario_current 2 false
    = [("B"%string, - (1 # 100)); ("C"%string, 5 # 1000)] /\
  entries_eq (get_biggest_changes scenario_current scenario_previous 2 true)
             [("A"%string, 1 # 100)] /\
  entries_eq (get_biggest_changes scenario_current scenario_previous 2 false)
             [("C"%string, - (5 # 1000))].
Proof.
  split; [vm_compute; reflexivity|].
  split; [vm_compute; reflexivity|].
  split.
  - assert (E : get_biggest_changes scenario_current scenario_previous 2 true
                = [("A"%string, (2 # 100) - (1 # 100))])
      by (vm_compute; reflexivity).
    rewrite E. repeat constructor.
  - assert (E : get_biggest_changes scenario_current scenario_previous 2 false
                = [("C"%string, (5 # 1000) - (1 # 100))])
      by (vm_compute; reflexivity).
    rewrite E. repeat constructor.
Qed.

(** The two changes of the scenario, computed on binary64 floats, are the
    floats [0.01] and [-0.005]. *)
Example scenario_changes_binary64 :
  (PrimFloat.eqb (change_binary64 0.02 0.01) 0.01
   && PrimFloat.eqb (change_binary64 0.005 0.01) (-0.005))%float = true.
Proof. vm_compute. reflexivity. Qed.

(** ** The premium and update_data *)

Lemma premium_zero (spot futures : Q) :
  spot == 0 -> premium spot futures = Raise ZeroDivisionError.
Proof.
  intro H. unfold premium, truediv.
  apply Qeq_bool_iff in H. now rewrite H.
Qed.

Lemma premium_nonzero (spot futures : Q) :
  ~ spot == 0 -> premium spot futures = Ok ((futures - spot) / spot * 100).
Proof.
  intro H. unfold premium, truediv.
  destruct (Qeq_bool spot 0) eqn:E; [|reflexivity].
  apply Qeq_bool_iff in E. contradiction.
Qed.

Lemma update_data_zero_spot (now : Z) (spot futures : Q)
    (funding_rate open_interest_now : option Q) (d : symbol_data) :
  spot == 0 ->
  update_data now (Some spot) (Some futures) funding_rate open_interest_now d
  = (Raise ZeroDivisionError, d).
Proof.
  intro H. unfold update_data, mbind, lift. now rewrite premium_zero.
Qed.

Lemma update_data_available (now : Z) (spot futures : Q)
    (funding_rate open_interest_now : option Q) (d : symbol_data) :
  ~ spot == 0 ->
  let prem := (futures - spot) / spot * 100 in
  update_data now (Some spot) (Some futures) funding_rate open_interest_now d
  = (Ok (returned spot futures prem funding_rate open_interest_now d),
     drop_expired now
       (appended now spot futures prem funding_rate open_interest_now d)).
Proof.
  intros H prem. unfold update_data, mbind, lift.
  rewrite premium_nonzero by exact H.
  destruct d as [ts sp fu pr fr oi lfr].
  destruct funding_rate as [r|], open_interest_now as [o|];
    destruct fr as [|f fr], oi as [|i oi]; reflexivity.
Qed.

Lemma update_data_unavailable (now : Z)
    (spot_price futures_price funding_rate open_interest_now : option Q)
    (d : symbol_data) :
  spot_price = None \/ futures_price = None ->
  update_data now spot_price futures_price funding_rate open_interest_now d
  = (Ok (None, None, None, funding_rate, open_interest_now), d).
Proof.
  intros [-> | ->]; [reflexivity|]. now destruct spot_price.
Qed.

Lemma fromtimestamp_in_range (ms : Z) :
  in_datetime_range ms -> fromtimestamp ms = Ok (ms * 1000)%Z.
Proof.
  unfold in_datetime_range, fromtimestamp. intros [H1 H2].
  apply Z.leb_le in H1, H2. now rewrite H1, H2.
Qed.

Lemma fromtimestamp_out_of_range (ms : Z) :
  ~ in_datetime_range ms -> fromtimestamp ms = Raise ValueError.
Proof.
  unfold in_datetime_range, fromtimestamp. intro H.
  destruct (MIN_TIMESTAMP_MS <=? ms)%Z eqn:E1; [|reflexivity].
  destruct (ms <=? MAX_TIMESTAMP_MS)%Z eqn:E2; [|reflexivity].
  apply Z.leb_le in E1, E2. exfalso. apply H. now split.
Qed.

Lemma in_datetime_range_dec (ms : Z) :
  {in_datetime_range ms} + {~ in_datetime_range ms}.
Proof.
  unfold in_datetime_range.
  destruct (Z_le_dec MIN_TIMESTAMP_MS ms); [|right; tauto].
  destruct (Z_le_dec ms MAX_TIMESTAMP_MS); [left|right]; tauto.
Qed.

Lemma klines_loop_raises (rows : list (kline_row * kline_row))
    (acc : klines_result) :
  Exists (fun row => ~ readable row) rows ->
  exists e, klines_loop rows acc = Raise e.
Proof.
  intro H. revert acc. induction H as [[[t s] [t' f]] rows Hz|row rows _ IH];
    intro acc; cbn [klines_loop].
  - destruct acc as [[[a b] c] d]. unfold readable in Hz.
    cbn [klines_step fst snd] in *.
    destruct (in_datetime_range_dec t) as [Hr|Hr].
    + rewrite (fromtimestamp_in_range Hr). cbn [bind].
      destruct (Qeq_dec s 0) as [Hs|Hs]; [|tauto].
      rewrite premium_zero by exact Hs. cbn [bind]. eauto.
    + rewrite (fromtimestamp_out_of_range Hr). cbn [bind]. eauto.
  - destruct (klines_step acc row) as [acc'|e]; cbn [bind]; eauto.
Qed.

Lemma klines_loop_maps (rows : list (kline_row * kline_row)) :
  forall ts sp fu pr,
    Forall readable rows ->
    klines_loop rows (ts, sp, fu, pr)
    = Ok (ts ++ map (fun row => (fst (fst row) * 1000)%Z) rows,
          sp ++ map (fun row => snd (fst row)) rows,
          fu ++ map (fun row => snd (snd row)) rows,
          pr ++ map (fun row =>
                       (snd (snd row) - snd (fst row)) / snd (fst row) * 100)
                    rows).
Proof.
  induction rows as [|[[t s] [t' f]] rows IH]; intros ts sp fu pr H;
    cbn [klines_loop map].
  - now rewrite !app_nil_r.
  - inversion H as [|? ? [Hr Hs] Hrows]; subst. cbn [fst snd] in *.
    cbn [klines_step]. rewrite (fromtimestamp_in_range Hr). cbn [bind].
    rewrite premium_nonzero by exact Hs. cbn [bind].
    rewrite IH by exact Hrows. unfold append. now rewrite <- !app_assoc.
Qed.

Lemma combine_firstn_min (A B : Type) (l : list A) (l' : list B) :
  combine (firstn (Nat.min (List.length l) (List.length l')) l)
          (firstn (Nat.min (List.length l) (List.length l')) l')
  = combine l l'.
Proof.
  rewrite <- combine_firstn. apply firstn_all2.
  rewrite length_combine. apply Nat.le_refl.
Qed.

Lemma get_historical_klines_readable (spot_data futures_data : list kline_row) :
  Forall readable (combine spot_data futures_data) ->
  get_historical_klines (Ok spot_data) (Ok futures_data)
  = klines_of (combine spot_data futures_data).
Proof.
  intro H. unfold get_historical_klines, bind. rewrite combine_firstn_min.
  now rewrite klines_loop_maps.
Qed.

Lemma get_historical_klines_unreadable (spot_data futures_data : list kline_row) :
  Exists (fun row => ~ readable row) (combine spot_data futures_data) ->
  get_historical_klines (Ok spot_data) (Ok futures_data) = ([], [], [], []).
Proof.
  intro H. unfold get_historical_klines, bind. rewrite combine_firstn_min.
  destruct (klines_loop_raises ([], [], [], []) H) as [e ->]. reflexivity.
Qed.

Lemma get_historical_klines_failed (spot_response futures_response
    : result (list kline_row)) (e : exn) :
  spot_response = Raise e \/ futures_response = Raise e ->
  get_historical_klines spot_response futures_response = ([], [], [], []).
Proof.
  intros [-> | ->]; [reflexivity|]. now destruct spot_response.
Qed.

(** C4.  The premium [(futures - spot) / spot * 100] raises
    [ZeroDivisionError] whenever [spot == 0], whatever the futures price, and
    so yields no value at all; for every [spot > 0] it evaluates to
    [(futures - spot) / spot * 100].  In [update_data] the exception reaches
    the caller and nothing has been stored.  In [get_historical_klines] it
    does not: a zero spot close in a row that is read ends the [try], and
    the caller receives four empty lists, the very value it receives when a
    request has failed; with every spot close above zero (and every open
    time one that [fromtimestamp] converts) the premiums of all rows are
    returned. *)
Theorem premium_zero_spot_raises :
  (forall spot futures,
      spot == 0 -> premium spot futures = Raise ZeroDivisionError) /\
  (forall spot futures,
      0 < spot -> premium spot futures = Ok ((futures - spot) / spot * 100)) /\
  (forall now spot futures funding_rate open_interest_now d,
      spot == 0 ->
      update_data now (Some spot) (Some futures) funding_rate open_interest_now d
      = (Raise ZeroDivisionError, d)) /\
  (forall now spot futures funding_rate open_interest_now d,
      0 < spot ->
      fst (update_data now (Some spot) (Some futures) funding_rate
                       open_interest_now d)
      = Ok (returned spot futures ((futures - spot) / spot * 100)
                     funding_rate open_interest_now d)) /\
  (forall spot_data futures_data : list kline_row,
      Exists (fun row => snd (fst row) == 0) (combine spot_data futures_data) ->
      get_historical_klines (Ok spot_data) (Ok futures_data) = ([], [], [], [])) /\
  (forall (spot_response futures_response : result (list kline_row)) e,
      spot_response = Raise e \/ futures_response = Raise e ->
      get_historical_klines spot_response futures_response = ([], [], [], [])) /\
  (forall spot_data futures_data : list kline_row,
      Forall (fun row => in_datetime_range (fst (fst row)) /\ 0 < snd (fst row))
             (combine spot_data futures_data) ->
      snd (get_historical_klines (Ok spot_data) (Ok futures_data))
      = map (fun row => (snd (snd row) - snd (fst row)) / snd (fst row) * 100)
            (combine spot_data futures_data)).
Proof.
  assert (Hpos : forall spot : Q, 0 < spot -> ~ spot == 0).
  { intros spot H E. rewrite E in H. exact (Qlt_irrefl 0 H). }
  split; [exact premium_zero|].
  split; [intros spot futures H; now apply premium_nonzero, Hpos|].
  split; [exact update_data_zero_spot|].
  split.
  { intros now spot futures funding_rate open_interest_now d H.
    now rewrite (update_data_available now futures funding_rate
                   open_interest_now d (Hpos spot H)). }
  split.
  { intros spot_data futures_data H. apply get_historical_klines_unreadable.
    apply Exists_exists in H. destruct H as (row & Hin & Hz).
    apply Exists_exists. exists row. split; [exact Hin|].
    unfold readable. tauto. }
  split; [intros; eapply get_historical_klines_failed; eassumption|].
  intros spot_data futures_data H.
  rewrite get_historical_klines_readable; [reflexivity|].
  apply Forall_forall. intros row Hin.
  rewrite Forall_forall in H. destruct (H row Hin) as [Hr Hs].
  split; [exact Hr|now apply Hpos].
Qed.

Lemma premium_zero_spot_raises_witness :
  premium 0 (3 # 2) = Raise ZeroDivisionError /\
  premium 2 3 = Ok ((3 - 2) / 2 * 100) /\
  update_data 0 (Some 0) (Some (3 # 2)) None None empty_data
  = (Raise ZeroDivisionError, empty_data) /\
  snd (get_historical_klines (Ok sample_spot_klines) (Ok sample_futures_klines))
  = [(3 - 2) / 2 * 100; (5 - 4) / 4 * 100].
Proof.
  destruct premium_zero_spot_raises as (Hz & Hp & Hu & _ & _ & _ & Hk).
  split; [apply Hz; reflexivity|].
  split; [apply Hp; reflexivity|].
  split; [apply Hu; reflexivity|].
  apply (Hk sample_spot_klines sample_futures_klines).
  unfold sample_spot_klines, sample_futures_klines. cbn [combine].
  repeat constructor;
    try (unfold MIN_TIMESTAMP_MS, MAX_TIMESTAMP_MS; cbn [fst snd]; lia);
    reflexivity.
Defined.

(** A spot close of [0.0] in the second minute: the division raises, but
    [get_historical_klines] returns the value it returns for a request that
    failed, without the first minute, which it had read. *)
Lemma get_historical_klines_swallows_zero_spot :
  premium 0 5 = Raise ZeroDivisionError /\
  get_historical_klines (Ok zero_spot_klines) (Ok sample_futures_klines)
  = ([], [], [], []) /\
  get_historical_klines (Raise RequestException) (Ok sample_futures_klines)
  = get_historical_klines (Ok zero_spot_klines) (Ok sample_futures_klines) /\
  get_historical_klines (Ok sample_spot_klines) (Ok sample_futures_klines)
  = ([60000000%Z; 120000000%Z], [2; 4], [3; 5],
     [(3 - 2) / 2 * 100; (5 - 4) / 4 * 100]).
Proof. repeat split. Qed.

Lemma valid_indices_bound (ts : list Z) (cutoff_time : Z) (i : nat) :
  In i (valid_indices ts cutoff_time) -> (i < List.length ts)%nat.
Proof.
  unfold valid_indices. intro H.
  apply in_map_iff in H. destruct H as [[j t] [<- H]].
  apply filter_In in H. destruct H as [H _].
  apply in_combine_l in H. apply in_seq in H. simpl. lia.
Qed.

Lemma cut_0 (d : symbol_data) : cut 0 d = d.
Proof. now destruct d. Qed.

Lemma drop_expired_cut (now : Z) (d : symbol_data) :
  exists start_idx,
    (start_idx <= Nat.pred (List.length (timestamps d)))%nat /\
    drop_expired now d = cut start_idx d.
Proof.
  unfold drop_expired.
  destruct (1 <? List.length (timestamps d))%nat;
    [|exists 0%nat; split; [lia|now rewrite cut_0]].
  destruct (timestamps d) as [|first ts] eqn:Ets;
    [exists 0%nat; split; [simpl; lia|now rewrite cut_0]|].
  destruct (first <? now - timedelta_hours HOURS_TO_DISPLAY)%Z;
    [|exists 0%nat; split; [lia|now rewrite cut_0]].
  destruct (valid_indices (first :: ts) _) as [|start_idx rest] eqn:Ev;
    [exists 0%nat; split; [lia|now rewrite cut_0]|].
  exists start_idx. split.
  - assert (H : (start_idx < List.length (first :: ts))%nat).
    { eapply valid_indices_bound. rewrite Ev. now left. }
    lia.
  - unfold cut. now rewrite Ets.
Qed.

Lemma aligned_cut (start_idx : nat) (d : symbol_data) :
  aligned d -> aligned (cut start_idx d).
Proof.
  unfold aligned, cut, slice_from. simpl. rewrite !length_skipn.
  intros (-> & -> & -> & -> & ->). repeat split.
Qed.

Lemma aligned_appended (now : Z) (spot futures prem : Q)
    (funding_rate open_interest_now : option Q) (d : symbol_data) :
  aligned d ->
  aligned (appended now spot futures prem funding_rate open_interest_now d).
Proof.
  unfold aligned, appended. simpl. rewrite !length_app. simpl.
  intros (-> & -> & -> & -> & ->). repeat split.
Qed.

Lemma last_slice_from_snoc (A : Type) (l : list A) (x d : A) (k : nat) :
  (k <= List.length l)%nat -> last (slice_from (l ++ [x]) k) d = x.
Proof.
  intro H. unfold slice_from. rewrite skipn_app.
  replace (k - List.length l)%nat with 0%nat by lia.
  simpl. apply last_last.
Qed.

Lemma update_data_available_cut (now : Z) (spot futures : Q)
    (funding_rate open_interest_now : option Q) (d : symbol_data) :
  ~ spot == 0 ->
  exists start_idx,
    (start_idx <= List.length (timestamps d))%nat /\
    update_data now (Some spot) (Some futures) funding_rate open_interest_now d
    = (Ok (returned spot futures ((futures - spot) / spot * 100)
                    funding_rate open_interest_now d),
       cut start_idx
           (appended now spot futures ((futures - spot) / spot * 100)
                     funding_rate open_interest_now d)).
Proof.
  intro Hnz. rewrite update_data_available by exact Hnz.
  destruct (drop_expired_cut now
              (appended now spot futures ((futures - spot) / spot * 100)
                        funding_rate open_interest_now d))
    as (start_idx & Hle & ->).
  exists start_idx. split; [|reflexivity].
  simpl in Hle. rewrite length_app in Hle. simpl in Hle. lia.
Qed.

(** C10.  On a record whose six series have one length, every call of
    [update_data] leaves them with one length.  With both prices available
    and a non-zero spot price, one element is appended to each of the six
    series (the last value of the series, or 0 when it is empty, standing in
    for a missing funding rate or open interest) and all six are then cut at
    one and the same start index.  With both prices available and a spot
    price of zero, the call raises [ZeroDivisionError] and the record is as
    it was.  With a price missing, the record is as it was. *)
Theorem update_data_keeps_series_aligned (now : Z)
    (spot_price futures_price funding_rate open_interest_now : option Q)
    (d : symbol_data) :
  aligned d ->
  aligned (snd (update_data now spot_price futures_price funding_rate
                            open_interest_now d)) /\
  (forall spot futures,
      spot_price = Some spot -> futures_price = Some futures -> ~ spot == 0 ->
      exists start_idx,
        (start_idx <= List.length (timestamps d))%nat /\
        update_data now spot_price futures_price funding_rate open_interest_now d
        = (Ok (returned spot futures ((futures - spot) / spot * 100)
                        funding_rate open_interest_now d),
           cut start_idx
               (appended now spot futures ((futures - spot) / spot * 100)
                         funding_rate open_interest_now d))) /\
  (forall spot futures,
      spot_price = Some spot -> futures_price = Some futures -> spot == 0 ->
      update_data now spot_price futures_price funding_rate open_interest_now d
      = (Raise ZeroDivisionError, d)) /\
  (spot_price = None \/ futures_price = None ->
   update_data now spot_price futures_price funding_rate open_interest_now d
   = (Ok (None, None, None, funding_rate, open_interest_now), d)).
Proof.
  intro Hal.
  assert (Hav : forall spot futures,
             spot_price = Some spot -> futures_price = Some futures ->
             ~ spot == 0 ->
             exists start_idx,
               (start_idx <= List.length (timestamps d))%nat /\
               update_data now spot_price futures_price funding_rate
                           open_interest_now d
               = (Ok (returned spot futures ((futures - spot) / spot * 100)
                               funding_rate open_interest_now d),
                  cut start_idx
                      (appended now spot futures ((futures - spot) / spot * 100)
                                funding_rate open_interest_now d))).
  { intros spot futures -> -> Hnz. now apply update_data_available_cut. }
  split; [|split; [exact Hav|split]].
  - destruct spot_price as [spot|], futures_price as [futures|];
      try (rewrite update_data_unavailable by tauto; exact Hal).
    destruct (Qeq_dec spot 0) as [Hz|Hnz].
    + now rewrite update_data_zero_spot.
    + destruct (Hav spot futures eq_refl eq_refl Hnz) as (k & _ & ->).
      simpl. now apply aligned_cut, aligned_appended.
  - intros spot futures -> -> Hz. now apply update_data_zero_spot.
  - apply update_data_unavailable.
Qed.

Lemma update_data_keeps_series_aligned_witness :
  aligned sample_data /\
  aligned (snd (update_data (timedelta_hours 4 + 50) (Some 2) (Some 3) None None
                            sample_data)) /\
  timestamps (snd (update_data (timedelta_hours 4 + 50) (Some 2) (Some 3)
                               None None sample_data))
  = [100; timedelta_hours 4 + 50]%Z.
Proof.
  assert (H : aligned sample_data) by (repeat split).
  split; [exact H|].
  split.
  - exact (proj1 (update_data_keeps_series_aligned (timedelta_hours 4 + 50)
                    (Some 2) (Some 3) None None H)).
  - reflexivity.
Defined.

(** With both prices available but a spot price of [0.0], [update_data]
    raises before its first [append]: no series grows. *)
Lemma update_data_zero_spot_appends_nothing :
  aligned empty_data /\
  update_data 0 (Some 0) (Some 1) (Some (1 # 10000)) (Some 5) empty_data
  = (Raise ZeroDivisionError, empty_data) /\
  List.length
    (timestamps
       (snd (update_data 0 (Some 0) (Some 1) (Some (1 # 10000)) (Some 5)
                         empty_data)))
  <> S (List.length (timestamps empty_data)).
Proof.
  split; [repeat split|]. split; [reflexivity|]. simpl. discriminate.
Qed.

(** ** The stored funding-rate series *)

(** For the fetched rate 0.0001 the series holds 0.01, which is not the
    fetched fraction; the history loader scales in the same way. *)
Lemma funding_series_is_scaled_example :
  funding_rates
    (snd (update_data 0 (Some 2) (Some 3) (Some (1 # 10000)) None empty_data))
  = [(1 # 10000) * 100] /\
  ~ last (funding_rates
            (snd (update_data 0 (Some 2) (Some 3) (Some (1 # 10000)) None
                              empty_data))) 0
    == 1 # 10000 /\
  snd (get_historical_funding_rates (Ok [(0%Z, 1 # 10000)]))
  = [(1 # 10000) * 100].
Proof.
  split; [reflexivity|]. split; [|reflexivity].
  simpl. intro H. discriminate H.
Qed.

Lemma history_loop_maps (stored : Q -> Q) (data : list (Z * Q)) :
  forall acc : list Z * list Q,
    Forall (fun item => in_datetime_range (fst item)) data ->
    history_loop stored data acc
    = Ok (fst acc ++ map (fun item => (fst item * 1000)%Z) data,
          snd acc ++ map (fun item => stored (snd item)) data).
Proof.
  induction data as [|item data IH]; intros acc H; cbn [history_loop map].
  - rewrite !app_nil_r. now destruct acc.
  - inversion H as [|? ? Hr Hdata]; subst.
    rewrite (fromtimestamp_in_range Hr). cbn [bind].
    rewrite IH by exact Hdata. cbn [fst snd]. unfold append.
    now rewrite <- !app_assoc.
Qed.

Lemma history_loop_raises (stored : Q -> Q) (data : list (Z * Q))
    (acc : list Z * list Q) :
  Exists (fun item => ~ in_datetime_range (fst item)) data ->
  exists e, history_loop stored data acc = Raise e.
Proof.
  intro H. revert acc. induction H as [item data Hr|item data _ IH];
    intro acc; cbn [history_loop].
  - rewrite (fromtimestamp_out_of_range Hr). cbn [bind]. eauto.
  - destruct (fromtimestamp (fst item)) as [t|e]; cbn [bind]; eauto.
Qed.



(** C5.  The stored [funding_rates] series holds percentages.  For a fetched
    funding rate [r]: when both prices are available and the spot price is
    not zero, [update_data] appends [r * 100] to the series and then cuts
    the series at the start index of the clean-up (on a record whose six
    series have one length, [r * 100] is the newest value afterwards); the
    unscaled fraction [r] is kept in [last_funding_rate] and is what the
    call returns.  When the spot price is zero the call raises, and when a
    price is missing it returns at once: in both cases the record, series
    and [last_funding_rate] included, is as it was.  The history loader
    [get_historical_funding_rates] returns every reported rate times 100
    when every [fundingTime] is one that [fromtimestamp] converts, and two
    empty lists otherwise, as for a request that failed. *)
Theorem funding_series_holds_percentages (now : Z) (r : Q)
    (open_interest_now : option Q) (d : symbol_data) :
  (forall spot futures,
      ~ spot == 0 ->
      (exists start_idx,
          (start_idx <= List.length (timestamps d))%nat /\
          funding_rates
            (snd (update_data now (Some spot) (Some futures) (Some r)
                              open_interest_now d))
          = slice_from (funding_rates d ++ [r * 100]) start_idx) /\
      (aligned d ->
       last (funding_rates
               (snd (update_data now (Some spot) (Some futures) (Some r)
                                 open_interest_now d))) 0
       = r * 100) /\
      last_funding_rate
        (snd (update_data now (Some spot) (Some futures) (Some r)
                          open_interest_now d))
      = Some r /\
      (exists prem oi,
          fst (update_data now (Some spot) (Some futures) (Some r)
                           open_interest_now d)
          = Ok (Some spot, Some futures, Some prem, Some r, oi))) /\
  (forall spot futures,
      spot == 0 ->
      update_data now (Some spot) (Some futures) (Some r) open_interest_now d
      = (Raise ZeroDivisionError, d)) /\
  (forall spot_price futures_price,
      spot_price = None \/ futures_price = None ->
      update_data now spot_price futures_price (Some r) open_interest_now d
      = (Ok (None, None, None, Some r, open_interest_now), d)) /\
  (forall data,
      Forall (fun item => in_datetime_range (fst item)) data ->
      get_historical_funding_rates (Ok data)
      = (map (fun item => (fst item * 1000)%Z) data,
         map (fun item => snd item * 100) data)) /\
  (forall data,
      Exists (fun item => ~ in_datetime_range (fst item)) data ->
      get_historical_funding_rates (Ok data) = ([], [])) /\
  (forall e, get_historical_funding_rates (Raise e) = ([], [])).
Proof.
  split.
  { intros spot futures Hnz.
    destruct (update_data_available_cut now futures (Some r) open_interest_now
                                        d Hnz) as (k & Hk & ->).
    cbn [fst snd]. split; [exists k; split; [exact Hk|reflexivity]|].
    split.
    - intro Hal. cbn [cut appended funding_rates]. apply last_slice_from_snoc.
      destruct Hal as (_ & _ & _ & -> & _). exact Hk.
    - split; [reflexivity|]. unfold returned. eauto. }
  split; [intros spot futures Hz; now apply update_data_zero_spot|].
  split; [intros spot_price futures_price H; now apply update_data_unavailable|].
  split.
  { intros data H. unfold get_historical_funding_rates. cbn [bind].
    now rewrite history_loop_maps by exact H. }
  split; [|reflexivity].
  intros data H. unfold get_historical_funding_rates. cbn [bind].
  destruct (history_loop_raises (fun rate => rate * 100) ([], []) H) as [e ->].
  reflexivity.
Qed.

Lemma funding_series_holds_percentages_witness :
  aligned sample_data /\ ~ 2 == 0 /\
  last (funding_rates
          (snd (update_data 5 (Some 2) (Some 3) (Some (1 # 10000)) None
                            sample_data))) 0
  = (1 # 10000) * 100 /\
  last_funding_rate
    (snd (update_data 5 (Some 2) (Some 3) (Some (1 # 10000)) None sample_data))
  = Some (1 # 10000).
Proof.
  assert (H : aligned sample_data) by (repeat split).
  assert (H2 : ~ 2 == 0) by (intro E; discriminate E).
  split; [exact H|]. split; [exact H2|].
  destruct (proj1 (funding_series_holds_percentages 5 (1 # 10000) None
                     sample_data) 2 3 H2) as (_ & Hlast & Hkept & _).
  split; [exact (Hlast H)|exact Hkept].
Defined.

(** ** The collectors *)

Lemma fold_append_flat_map (A B : Type) (f : A -> option B) (l : list A)
    (acc : list B) :
  fold_left
    (fun results a =>
       match f a with Some r => append results r | None => results end)
    l acc
  = acc ++ flat_map (fun a => match f a with Some r => [r] | None => [] end) l.
Proof.
  revert acc. induction l as [|a l IH]; intro acc; simpl.
  - now rewrite app_nil_r.
  - rewrite IH. destruct (f a); unfold append; simpl.
    + now rewrite <- app_assoc.
    + reflexivity.
Qed.

Lemma get_klines_parallel_succeeded (response : symbol -> result (list candle))
    (completed : list symbol) :
  get_klines_parallel response completed = succeeded response completed.
Proof.
  unfold get_klines_parallel, succeeded.
  now rewrite (fold_append_flat_map (fetch_kline response)).
Qed.

Lemma succeeded_In (response : symbol -> result (list candle))
    (symbols : list symbol) (r : kline) :
  In r (succeeded response symbols) <->
  exists s, In s symbols /\ fetch_kline response s = Some r.
Proof.
  unfold succeeded. rewrite in_flat_map. split; intros [s [Hs H]]; exists s.
  - destruct (fetch_kline response s) as [r'|]; [|contradiction].
    destruct H as [->|[]]. now split.
  - split; [exact Hs|]. rewrite H. now left.
Qed.

Lemma analyze_positions_map (open_interest_response : symbol -> result Q)
    (history_response : symbol -> result (list Q)) (symbols : list symbol) :
  analyze_positions open_interest_response history_response symbols
  = map (get_position_data open_interest_response history_response) symbols.
Proof.
  unfold analyze_positions.
  rewrite (fold_append_flat_map
             (fun s => Some (get_position_data open_interest_response
                                               history_response s))).
  simpl. induction symbols as [|s l IH]; simpl; [reflexivity|now rewrite IH].
Qed.

(** With the exchange unreachable, [analyze_positions] still returns an
    entry for the symbol: the zero-filled record of the [except] branch. *)
Lemma analyze_positions_keeps_failed_symbol :
  position_fetch_failed unreachable_open_interest unreachable_history
                        "BTCUSDT"%string
  = true /\
  analyze_positions unreachable_open_interest unreachable_history ["BTCUSDT"%string]
  = [zero_position "BTCUSDT"%string] /\
  analyze_positions unreachable_open_interest unreachable_history ["BTCUSDT"%string]
  <> [].
Proof.
  split; [reflexivity|]. split; [reflexivity|]. discriminate.
Qed.

(** C6.  [get_klines_parallel] returns, in whatever order the tasks
    complete, exactly the results of the fetches that succeeded: one entry
    per submitted symbol whose fetch succeeded and none for a symbol whose
    fetch failed; the entry of a symbol depends on the response for that
    symbol alone.  [analyze_positions] returns one entry per submitted
    symbol, in submission order, and the entry of a symbol whose fetch failed
    is the zero-filled record. *)
Theorem collectors_on_failure :
  (forall response symbols completed,
      Permutation completed symbols ->
      Permutation (get_klines_parallel response completed)
                  (succeeded response symbols) /\
      (forall r,
          In r (get_klines_parallel response completed) <->
          exists s, In s symbols /\ fetch_kline response s = Some r) /\
      (List.length (get_klines_parallel response completed)
       = List.length
           (filter (fun s => match fetch_kline response s with
                             | Some _ => true
                             | None => false
                             end) symbols))) /\
  (forall response response' s,
      response s = response' s ->
      fetch_kline response s = fetch_kline response' s) /\
  (forall open_interest_response history_response symbols,
      analyze_positions open_interest_response history_response symbols
      = map (get_position_data open_interest_response history_response) symbols /\
      (forall s,
          position_fetch_failed open_interest_response history_response s = true ->
          get_position_data open_interest_response history_response s
          = zero_position s)).
Proof.
  split; [|split].
  - intros response symbols completed Hperm.
    rewrite get_klines_parallel_succeeded.
    assert (HP : Permutation (succeeded response completed)
                             (succeeded response symbols))
      by (apply Permutation_flat_map; exact Hperm).
    split; [exact HP|]. split.
    + intro r. rewrite <- succeeded_In. split; apply Permutation_in;
        [exact HP|apply Permutation_sym, HP].
    + rewrite (Permutation_length HP). unfold succeeded.
      clear. induction symbols as [|s l IH]; simpl; [reflexivity|].
      rewrite length_app, IH.
      now destruct (fetch_kline response s).
  - intros response response' s H. unfold fetch_kline. now rewrite H.
  - intros oi hist symbols. split; [apply analyze_positions_map|].
    intros s H. unfold position_fetch_failed in H. unfold get_position_data.
    destruct (oi s) as [c|e]; [|reflexivity].
    destruct (hist s) as [h|e]; [discriminate|reflexivity].
Qed.

Lemma collectors_on_failure_witness :
  Permutation ["B"; "A"]%string ["A"; "B"]%string /\
  position_fetch_failed unreachable_open_interest unreachable_history
                        "A"%string = true /\
  get_position_data unreachable_open_interest unreachable_history "A"%string
  = zero_position "A"%string /\
  get_klines_parallel (fun _ => Raise RequestException) ["B"; "A"]%string = [].
Proof.
  assert (HP : Permutation ["B"; "A"]%string ["A"; "B"]%string)
    by apply perm_swap.
  assert (HF : position_fetch_failed unreachable_open_interest
                                     unreachable_history "A"%string = true)
    by reflexivity.
  destruct collectors_on_failure as (Hk & _ & Ha).
  split; [exact HP|]. split; [exact HF|]. split.
  - exact (proj2 (Ha unreachable_open_interest unreachable_history [])
                 "A"%string HF).
  - apply Permutation_nil.
    apply Permutation_sym.
    exact (proj1 (Hk (fun _ => Raise RequestException) _ _ HP)).
Defined.

(** ** The snapshot file *)

Lemma firstn_strict_prefix (A : Type) (l : list A) (written : nat) :
  (written < List.length l)%nat -> firstn written l <> l.
Proof.
  intros H E. apply (f_equal (@List.length A)) in E.
  rewrite length_firstn in E. lia.
Qed.

Lemma json_dump_length (s : stats) : (0 < List.length (json_dump s))%nat.
Proof. unfold json_dump. simpl. lia. Qed.

Lemma save_completes (s : stats) (old : file) :
  holds_snapshot (save s WriteCompletes old) s.
Proof.
  unfold holds_snapshot, save, save_steps. simpl. now rewrite firstn_all.
Qed.

(** A save of [snapshot_b] over [snapshot_a] that is interrupted right
    after the [open]: the file is empty, neither the old snapshot nor the
    new one. *)
Lemma save_interrupted_after_open :
  file_after (Some (json_dump snapshot_a)) (json_dump snapshot_b) 1 = Some [] /\
  ~ holds_snapshot
      (file_after (Some (json_dump snapshot_a)) (json_dump snapshot_b) 1)
      snapshot_a /\
  ~ holds_snapshot
      (file_after (Some (json_dump snapshot_a)) (json_dump snapshot_b) 1)
      snapshot_b.
Proof.
  split; [reflexivity|]. split; intro H; discriminate H.
Qed.

(** C7.  A save overwrites the snapshot file in place.  Before the [open]
    the file is the old one; from the [open] on, which truncates the file,
    until the last chunk is written, the file holds a strict prefix of the
    new snapshot (empty right after the [open]) and so is not the complete
    new snapshot; once every chunk is written, and after a save that runs to
    completion, the file holds exactly the complete new snapshot. *)
Theorem save_overwrites_in_place (old : file) (s : stats) (k : nat) :
  (k = 0%nat -> file_after old (json_dump s) k = old) /\
  ((1 <= k < save_steps (json_dump s))%nat ->
   file_after old (json_dump s) k = Some (firstn (k - 1) (json_dump s)) /\
   (k - 1 < List.length (json_dump s))%nat /\
   ~ holds_snapshot (file_after old (json_dump s) k) s) /\
  ((save_steps (json_dump s) <= k)%nat ->
   holds_snapshot (file_after old (json_dump s) k) s) /\
  holds_snapshot (save s WriteCompletes old) s.
Proof.
  unfold holds_snapshot, save, save_steps. repeat split.
  - now intros ->.
  - destruct k as [|k]; [lia|]. simpl. now rewrite Nat.sub_0_r.
  - lia.
  - destruct k as [|k]; [lia|]. simpl. intros [= E].
    apply firstn_strict_prefix in E; [exact E|lia].
  - intro H. destruct k as [|k]; [lia|]. simpl.
    rewrite firstn_all2; [reflexivity|lia].
  - exact (save_completes s old).
Qed.

Lemma save_overwrites_in_place_witness :
  (1 <= 3 < save_steps (json_dump snapshot_b))%nat /\
  file_after (Some (json_dump snapshot_a)) (json_dump snapshot_b) 3
  = Some [BeginObject; Key "timestamp"].
Proof.
  assert (H : (1 <= 3 < save_steps (json_dump snapshot_b))%nat)
    by (vm_compute; split; repeat constructor).
  split; [exact H|].
  exact (proj1 (proj1 (proj2
    (save_overwrites_in_place (Some (json_dump snapshot_a)) snapshot_b 3)) H)).
Defined.

(** ** The poll cycle *)

Lemma changes_of_no_previous (current : dict Q) (increasing : bool) :
  changes_of current [] increasing = [].
Proof.
  unfold changes_of. induction current as [|[s rate] l IH]; simpl; auto.
Qed.

Lemma get_biggest_changes_no_previous (current : dict Q) (n : Z)
    (increasing : bool) :
  get_biggest_changes current [] n increasing = [].
Proof.
  unfold get_biggest_changes. rewrite changes_of_no_previous.
  unfold sorted, slice_to. simpl.
  destruct increasing; simpl; destruct (n <? 0)%Z; apply firstn_nil.
Qed.

Lemma run_task_no_rates (now : string) (outcome : write_outcome)
    (self : Tracker.t) :
  run_task [] now outcome self
  = (None,
     {| Tracker.previous_rates := Tracker.previous_rates self;
        Tracker.current_rates := [];
        Tracker.data_file := Tracker.data_file self |}).
Proof. reflexivity. Qed.

Lemma run_task_rates (fetched : dict Q) (now : string)
    (outcome : write_outcome) (self : Tracker.t) :
  fetched <> [] ->
  let st :=
    {| timestamp := now;
       highest_rates := get_top_n fetched 5 true;
       lowest_rates := get_top_n fetched 5 false;
       biggest_increases :=
         get_biggest_changes fetched (Tracker.previous_rates self) 5 true;
       biggest_decreases :=
         get_biggest_changes fetched (Tracker.previous_rates self) 5 false;
       previous_rates := fetched |} in
  run_task fetched now outcome self
  = (Some st,
     {| Tracker.previous_rates := fetched;
        Tracker.current_rates := fetched;
        Tracker.data_file := save st outcome (Tracker.data_file self) |}).
Proof.
  intro H. destruct fetched as [|e l]; [contradiction|].
  unfold run_task. destruct (Tracker.previous_rates self) as [|p prev] eqn:E.
  - now rewrite !get_biggest_changes_no_previous.
  - reflexivity.
Qed.







(** ** The rate limiter *)

Lemma evict_suffix (current_time time_window : Q) (queue : list Q) :
  exists dropped, queue = dropped ++ evict current_time time_window queue.
Proof.
  induction queue as [|t queue [dropped IH]]; simpl.
  - now exists [].
  - destruct (Qltb time_window (current_time - t)).
    + exists (t :: dropped). simpl. now f_equal.
    + now exists [].
Qed.

Lemma evict_head (current_time time_window : Q) (queue : list Q)
    (oldest : Q) (rest : list Q) :
  evict current_time time_window queue = oldest :: rest ->
  current_time - oldest <= time_window.
Proof.
  induction queue as [|t queue IH]; simpl; [discriminate|].
  destruct (Qltb time_window (current_time - t)) eqn:E; [exact IH|].
  intros [= -> ->]. now apply Qltb_false.
Qed.

Lemma filter_length_le (A : Type) (f : A -> bool) (l : list A) :
  (List.length (filter f l) <= List.length l)%nat.
Proof.
  induction l as [|a l IH]; simpl; [lia|]. destruct (f a); simpl; lia.
Qed.

Lemma filter_length_mono (A : Type) (f g : A -> bool) (l : list A) :
  (forall a, f a = true -> g a = true) ->
  (List.length (filter f l) <= List.length (filter g l))%nat.
Proof.
  intro H. induction l as [|a l IH]; simpl; [lia|].
  destruct (f a) eqn:Ef.
  - rewrite (H a Ef). simpl. lia.
  - destruct (g a); simpl; lia.
Qed.

Lemma younger_than_app (now tw : Q) (l l' : list Q) :
  younger_than now tw (l ++ l') = younger_than now tw l ++ younger_than now tw l'.
Proof. apply filter_app. Qed.

Lemma younger_than_length (now tw : Q) (l : list Q) :
  (List.length (younger_than now tw l) <= List.length l)%nat.
Proof. apply filter_length_le. Qed.

Lemma younger_than_later (now now' tw : Q) (l : list Q) :
  now <= now' ->
  (List.length (younger_than now' tw l) <= List.length (younger_than now tw l))%nat.
Proof.
  intro H. apply filter_length_mono. intros t Ht.
  apply Qltb_true in Ht. apply Qltb_true. lra.
Qed.

Lemma younger_than_old (now tw t : Q) (l : list Q) :
  tw <= now - t -> younger_than now tw (t :: l) = younger_than now tw l.
Proof.
  intro H. unfold younger_than. simpl.
  apply Qltb_false in H. now rewrite H.
Qed.

Lemma younger_than_young (now tw t : Q) (l : list Q) :
  now - t < tw -> younger_than now tw (t :: l) = t :: younger_than now tw l.
Proof.
  intro H. unfold younger_than. simpl.
  apply Qltb_true in H. now rewrite H.
Qed.

Lemma StronglySorted_app_r (A : Type) (R : A -> A -> Prop) (l l' : list A) :
  StronglySorted R (l ++ l') -> StronglySorted R l'.
Proof.
  induction l as [|a l IH]; simpl; [exact (fun H => H)|].
  intro H. inversion H; subst. now apply IH.
Qed.

Lemma kept_not_stale (current_time tw oldest : Q) (rest : list Q) :
  StronglySorted Qle (oldest :: rest) ->
  current_time - oldest <= tw ->
  Forall (fun t => current_time - t <= tw) (oldest :: rest).
Proof.
  intros Hs Ho. inversion Hs as [|? ? _ Hall]; subst.
  constructor; [exact Ho|].
  rewrite Forall_forall in *. intros t Ht. specialize (Hall t Ht). lra.
Qed.

Lemma acquire_step (current_time : Q) (self : RateLimiter) :
  (0 < max_requests self)%Z ->
  let queue := evict current_time (time_window self) (requests self) in
  exists slept self',
    acquire current_time self = (Ok slept, self') /\
    acquire_procedure {| before := self; read_at := current_time;
                         returned_at := current_time + slept;
                         after := self' |} /\
    (forall previous_return,
        limiter_inv previous_return self ->
        previous_return < current_time ->
        limiter_inv (current_time + slept) self' /\
        Forall (fun t => current_time - t <= time_window self) queue).
Proof.
  intros Hmax queue. unfold acquire, acquire_procedure, kept, limiter_inv,
    within_window.
  destruct self as [mr tw q].
  cbn [max_requests time_window requests set_requests before after read_at
       returned_at] in *.
  destruct (evict_suffix current_time tw q) as [dropped Hq].
  fold queue. fold queue in Hq.
  assert (Hhead := @evict_head current_time tw q). fold queue in Hhead.
  clearbody queue.
  assert (Hinv' : forall previous_return slept,
             Forall (fun t => t <= previous_return) q ->
             StronglySorted Qle q ->
             previous_return < current_time -> 0 <= slept ->
             Forall (fun t => t <= current_time + slept) (queue ++ [current_time])
             /\ StronglySorted Qle (queue ++ [current_time])
             /\ Forall (fun t => current_time - t <= tw) queue).
  { intros previous_return slept Hle Hsorted Hclock Hslept.
    rewrite Hq in Hle, Hsorted. apply Forall_app in Hle. destruct Hle as [_ Hle].
    apply StronglySorted_app_r in Hsorted.
    assert (Hlt : Forall (fun t => t <= current_time) queue).
    { rewrite Forall_forall in *. intros t Ht. specialize (Hle t Ht). lra. }
    split; [|split].
    - apply Forall_app. split.
      + rewrite Forall_forall in *. intros t Ht. specialize (Hlt t Ht). lra.
      + constructor; [lra|constructor].
    - apply StronglySorted_snoc; assumption.
    - destruct queue as [|oldest rest]; [constructor|].
      apply kept_not_stale; [exact Hsorted|]. now apply (Hhead oldest rest). }
  destruct (Z.leb_spec mr (Z.of_nat (List.length queue))) as [Hfull|Hroom].
  - destruct queue as [|oldest kept']; [simpl in Hfull; lia|].
    specialize (Hhead oldest kept' eq_refl).
    set (sleep_time := oldest + tw - current_time).
    assert (Hslept : exists slept,
               (if Qltb 0 sleep_time then sleep_time else 0) = slept /\
               slept == sleep_time).
    { destruct (Qltb 0 sleep_time) eqn:E; eexists; split; try reflexivity.
      apply Qltb_false in E. unfold sleep_time in *. lra. }
    destruct Hslept as (slept & -> & Hs). unfold sleep_time in Hs.
    eexists slept, _. split; [reflexivity|].
    unfold set_requests, append.
    cbn [max_requests time_window requests].
    split.
    { split; [reflexivity|]. split; [reflexivity|]. split; [reflexivity|].
      split; [lia|]. intros o r [= <- <-] _. lra. }
    intros previous_return (Hinv & Hle & Hsorted) Hclock.
    destruct (Hinv' previous_return slept Hle Hsorted Hclock ltac:(lra))
      as (H1 & H2 & H3).
    split; [|exact H3]. split; [|split; assumption].
    rewrite younger_than_app, length_app.
    rewrite younger_than_old by lra.
    assert (Hnew := younger_than_length (current_time + slept) tw [current_time]).
    assert (Hkept' := @younger_than_later previous_return (current_time + slept)
                        tw kept' ltac:(lra)).
    rewrite Hq, younger_than_app, length_app in Hinv.
    rewrite younger_than_young in Hinv by lra.
    cbn [List.length] in Hinv, Hnew. lia.
  - eexists 0, _. split; [reflexivity|].
    unfold set_requests, append.
    cbn [max_requests time_window requests].
    split.
    { split; [reflexivity|]. split; [reflexivity|]. split; [reflexivity|].
      split; [intros _; lra|]. intros o r _ Hge. lia. }
    intros previous_return (Hinv & Hle & Hsorted) Hclock.
    destruct (Hinv' previous_return 0 Hle Hsorted Hclock ltac:(lra))
      as (H1 & H2 & H3).
    split; [|exact H3]. split; [|split; assumption].
    rewrite younger_than_app, length_app.
    assert (H4 := younger_than_length (current_time + 0) tw queue).
    assert (H5 := younger_than_length (current_time + 0) tw [current_time]).
    cbn [List.length] in H5. lia.
Qed.


(** C8.  The bound of the claim, at most [max_requests] recorded timestamps
    within the trailing [time_window] once a call has returned, fails on
    three calls on a limiter of one request per ten seconds that read the
    clock at 0, 1 and 10.  The second call sleeps until 10 and records 1; the
    third reads the clock at the moment the second returned, finds the
    timestamp 0 exactly ten seconds old, which the eviction loop keeps, and a
    sleep time of 0, and records 10.  When it returns, the two timestamps 1
    and 10 are less than ten seconds old and all three recorded timestamps
    are at most ten seconds old, against a limit of one. *)
Lemma acquire_boundary_example :
  map returned_at (acquire_all [0; 1; 10] (new_limiter 1 10)) = [0 + 0; 1 + 9; 10 + 0]
  /\ map (fun c => requests (after c)) (acquire_all [0; 1; 10] (new_limiter 1 10))
     = [[0]; [0; 1]; [0; 1; 10]]
  /\ map (fun c => within_window (returned_at c) (after c))
         (acquire_all [0; 1; 10] (new_limiter 1 10))
     = [[0]; [1]; [1; 10]]
  /\ map (fun c => not_older_than_window (returned_at c) (after c))
         (acquire_all [0; 1; 10] (new_limiter 1 10))
     = [[0]; [0; 1]; [0; 1; 10]]
  /\ ~ Forall window_bounded (acquire_all [0; 1; 10] (new_limiter 1 10)).
Proof.
  split; [vm_compute; reflexivity|].
  split; [vm_compute; reflexivity|].
  split; [vm_compute; reflexivity|].
  split; [vm_compute; reflexivity|].
  intro H.
  assert (E : exists c1 c2 c3,
             acquire_all [0; 1; 10] (new_limiter 1 10) = [c1; c2; c3] /\
             within_window (returned_at c3) (after c3) = [1; 10] /\
             max_requests (after c3) = 1%Z).
  { eexists _, _, _. split; [reflexivity|]. split; vm_compute; reflexivity. }
  destruct E as (c1 & c2 & c3 & E & Hw & Hm). rewrite E in H.
  inversion H as [|? ? _ H']; subst. inversion H' as [|? ? _ H'']; subst.
  inversion H'' as [|? ? Hb _]; subst.
  unfold window_bounded in Hb. rewrite Hw, Hm in Hb. simpl in Hb. lia.
Qed.



(** * Further properties of the modelled code *)

(** ** Rankings: what is returned and what is left out *)

Lemma StronglySorted_app_cross (A : Type) (R : A -> A -> Prop) (l l' : list A)
    (a b : A) :
  StronglySorted R (l ++ l') -> In a l -> In b l' -> R a b.
Proof.
  induction l as [|x l IH]; simpl; [tauto|].
  intros Hs [->|Ha] Hb; inversion Hs as [|? ? Hs' Hall]; subst.
  - rewrite Forall_forall in Hall. apply Hall, in_or_app. now right.
  - now apply IH.
Qed.

Lemma slice_to_best (reverse : bool) (l : list entry) (n : Z) (kept left_out : entry) :
  StronglySorted (ranked reverse) l ->
  In kept (slice_to l n) -> In left_out l -> ~ In left_out (slice_to l n) ->
  ranked reverse kept left_out.
Proof.
  intros Hs Hk Hl Hn. destruct (slice_to_prefix l n) as [k E].
  rewrite E in Hk, Hn. rewrite <- (firstn_skipn k l) in Hs, Hl.
  apply in_app_or in Hl. destruct Hl as [Hl|Hl]; [contradiction|].
  eapply StronglySorted_app_cross; eassumption.
Qed.

(** X1.  [get_top_n] returns the best entries: whatever item of the mapping it
    leaves out ranks no better than every entry it returns (its rate is not
    higher when the highest are asked for, not lower when the lowest are).
    This holds for every [n], negative ones included. *)
Theorem get_top_n_best (rates : dict Q) (n : Z) (reverse : bool)
    (kept left_out : entry) :
  In kept (get_top_n rates n reverse) ->
  In left_out rates ->
  ~ In left_out (get_top_n rates n reverse) ->
  ranked reverse kept left_out.
Proof.
  unfold get_top_n. intros Hk Hl Hn.
  apply (@slice_to_best reverse (sorted (@snd symbol Q) rates reverse) n);
    [apply ranked_sorted|exact Hk| |exact Hn].
  eapply Permutation_in; [apply Permutation_sym, sorted_perm|exact Hl].
Qed.

Lemma get_top_n_best_witness :
  In ("A"%string, 2 # 100) (get_top_n scenario_current 2 true) /\
  In ("B"%string, - (1 # 100)) scenario_current /\
  ~ In ("B"%string, - (1 # 100)) (get_top_n scenario_current 2 true) /\
  ranked true ("A"%string, 2 # 100) ("B"%string, - (1 # 100)).
Proof.
  assert (H1 : In ("A"%string, 2 # 100) (get_top_n scenario_current 2 true))
    by (vm_compute; auto).
  assert (H2 : In ("B"%string, - (1 # 100)) scenario_current)
    by (vm_compute; auto).
  assert (H3 : ~ In ("B"%string, - (1 # 100))
                    (get_top_n scenario_current 2 true))
    by (vm_compute; intuition discriminate).
  repeat split; try assumption.
  exact (get_top_n_best scenario_current 2 true _ _ H1 H2 H3).
Defined.

(** X4.  [get_biggest_changes] returns the biggest movers: a candidate change it
    leaves out is no bigger an increase (no bigger a decrease) than every
    change it returns. *)
Theorem get_biggest_changes_best (current previous : dict Q) (n : Z)
    (increasing : bool) (kept left_out : entry) :
  In kept (get_biggest_changes current previous n increasing) ->
  In left_out (changes_of current previous increasing) ->
  ~ In left_out (get_biggest_changes current previous n increasing) ->
  ranked increasing kept left_out.
Proof.
  unfold get_biggest_changes. intros Hk Hl Hn.
  apply (@slice_to_best increasing
           (sorted (@snd symbol Q) (changes_of current previous increasing)
                   increasing) n);
    [apply ranked_sorted|exact Hk| |exact Hn].
  eapply Permutation_in; [apply Permutation_sym, sorted_perm|exact Hl].
Qed.

Lemma get_biggest_changes_best_witness :
  ranked false ("C"%string, (5 # 1000) - (1 # 100))
               ("A"%string, (2 # 1000) - (3 # 1000)).
Proof.
  apply (@get_biggest_changes_best
           [("A"%string, 2 # 1000); ("C"%string, 5 # 1000)]
           [("A"%string, 3 # 1000); ("C"%string, 1 # 100)] 1 false).
  - vm_compute. auto.
  - vm_compute. auto.
  - vm_compute. intuition discriminate.
Defined.

(** X2.  The exact number of entries of [get_top_n]: [min(n, size)] for
    [n >= 0]; a negative [n] is not an error but drops the last [-n] entries
    of the full ranking. *)
Theorem get_top_n_length (rates : dict Q) (n : Z) (reverse : bool) :
  Z.of_nat (List.length (get_top_n rates n reverse))
  = (if (n <? 0)%Z
     then Z.max 0 (Z.of_nat (List.length rates) + n)
     else Z.min n (Z.of_nat (List.length rates)))%Z.
Proof.
  unfold get_top_n, slice_to.
  assert (E : List.length (sorted (@snd symbol Q) rates reverse)
              = List.length rates)
    by apply Permutation_length, sorted_perm.
  destruct (Z.ltb_spec n 0); rewrite length_firstn, E; lia.
Qed.

(** ** Rankings: ties *)

Lemma insert_split (A : Type) (key : A -> Q) (x : A) (l : list A) :
  exists before after,
    l = before ++ after /\
    insert key x l = before ++ x :: after /\
    Forall (fun y => key y < key x) before.
Proof.
  induction l as [|y l (before & after & El & Ei & Hb)]; simpl.
  - exists [], []. repeat split. constructor.
  - destruct (Qltb (key y) (key x)) eqn:E.
    + exists (y :: before), after. simpl. rewrite <- El, Ei.
      repeat split. constructor; [now apply Qltb_true|exact Hb].
    + exists [], (y :: l). repeat split. constructor.
Qed.

Lemma with_value_none (v : Q) (x : entry) (before : list entry) :
  snd x == v -> Forall (fun y : entry => snd y < snd x) before ->
  with_value v before = [].
Proof.
  intros E Hb. unfold with_value.
  induction Hb as [|y before Hy _ IH]; simpl; [reflexivity|].
  destruct (Qeq_bool (snd y) v) eqn:Ey; [|exact IH].
  apply Qeq_bool_iff in Ey. exfalso. rewrite Ey, E in Hy.
  exact (Qlt_irrefl v Hy).
Qed.

Lemma with_value_app (v : Q) (l l' : list entry) :
  with_value v (l ++ l') = with_value v l ++ with_value v l'.
Proof. apply filter_app. Qed.

Lemma with_value_cons (v : Q) (x : entry) (l : list entry) :
  with_value v (x :: l)
  = if Qeq_bool (snd x) v then x :: with_value v l else with_value v l.
Proof. reflexivity. Qed.

Lemma with_value_insert (v : Q) (x : entry) (l : list entry) :
  with_value v (insert (@snd symbol Q) x l) = with_value v (x :: l).
Proof.
  destruct (insert_split (@snd symbol Q) x l) as (before & after & -> & -> & Hb).
  rewrite with_value_app, !with_value_cons, with_value_app.
  destruct (Qeq_bool (snd x) v) eqn:E; [|reflexivity].
  apply Qeq_bool_iff in E. now rewrite (with_value_none x E Hb).
Qed.

Lemma with_value_stable_sort (v : Q) (l : list entry) :
  with_value v (stable_sort (@snd symbol Q) l) = with_value v l.
Proof.
  induction l as [|x l IH]; simpl; [reflexivity|].
  now rewrite with_value_insert, !with_value_cons, IH.
Qed.

Lemma with_value_rev (v : Q) (l : list entry) :
  with_value v (rev l) = rev (with_value v l).
Proof.
  induction l as [|x l IH]; simpl; [reflexivity|].
  rewrite with_value_app, IH, !with_value_cons.
  destruct (Qeq_bool (snd x) v); simpl; [reflexivity|apply app_nil_r].
Qed.

Lemma with_value_sorted (v : Q) (l : list entry) (reverse : bool) :
  with_value v (sorted (@snd symbol Q) l reverse) = with_value v l.
Proof.
  unfold sorted. destruct reverse.
  - now rewrite with_value_rev, with_value_stable_sort, with_value_rev,
      rev_involutive.
  - apply with_value_stable_sort.
Qed.

(** X3.  Ties keep the order of the mapping: in the full ranking ([n] at least
    the size of the mapping) the entries that share a value [v] come in the
    order in which the mapping iterates them, for both directions. *)
Theorem get_top_n_stable (rates : dict Q) (n : Z) (reverse : bool) (v : Q) :
  (Z.of_nat (List.length rates) <= n)%Z ->
  with_value v (get_top_n rates n reverse) = with_value v rates.
Proof.
  intro Hn. unfold get_top_n. rewrite slice_to_all.
  - apply with_value_sorted.
  - now rewrite (Permutation_length (sorted_perm _ _ _)).
Qed.

Lemma get_top_n_stable_witness :
  with_value (1 # 10000)
    (get_top_n [("X"%string, 1 # 10000); ("Y"%string, 3 # 10000);
                ("Z"%string, 1 # 10000)] 5 true)
  = [("X"%string, 1 # 10000); ("Z"%string, 1 # 10000)].
Proof.
  apply (@get_top_n_stable
           [("X"%string, 1 # 10000); ("Y"%string, 3 # 10000);
            ("Z"%string, 1 # 10000)] 5 true (1 # 10000)).
  simpl. lia.
Defined.

(** ** Changes: one entry per symbol, none without a change *)

Lemma contribution_keys_NoDup (previous : dict Q) (increasing : bool)
    (current : dict Q) :
  NoDup (keys current) ->
  NoDup (keys (flat_map (contribution previous increasing) current)) /\
  forall k,
    In k (keys (flat_map (contribution previous increasing) current)) ->
    In k (keys current).
Proof.
  unfold keys. induction current as [|[s rate] l IH]; simpl; intro Hnd.
  - split; [constructor|tauto].
  - inversion Hnd as [|? ? Hs Hnd']; subst.
    destruct (IH Hnd') as [IH1 IH2].
    unfold contribution at 1 3. simpl.
    destruct (dict_get previous s) as [prev|]; [|split; auto].
    destruct (_ || _); [|split; auto]. simpl. split.
    + constructor; [|exact IH1]. intro Hin. apply Hs. now apply IH2.
    + intros k [<-|Hk]; auto.
Qed.

(** X5.  With [current] a dictionary, no symbol occurs twice in what
    [get_biggest_changes] returns, and no symbol is returned both as an
    increase and as a decrease. *)
Theorem get_biggest_changes_one_entry (current previous : dict Q) (n m : Z) :
  dict_wf current ->
  (forall increasing,
      NoDup (keys (get_biggest_changes current previous n increasing))) /\
  (forall s up down,
      In (s, up) (get_biggest_changes current previous n true) ->
      In (s, down) (get_biggest_changes current previous m false) ->
      False).
Proof.
  intro Hwf. split.
  - intro increasing. unfold get_biggest_changes.
    destruct (slice_to_prefix
                (sorted (@snd symbol Q)
                        (changes_of current previous increasing) increasing) n)
      as [k ->].
    unfold keys. rewrite <- firstn_map. apply NoDup_firstn.
    eapply Permutation_NoDup.
    + apply Permutation_sym, Permutation_map, sorted_perm.
    + rewrite changes_of_flat_map by exact Hwf.
      now apply contribution_keys_NoDup.
  - intros s up down Hup Hdown.
    unfold get_biggest_changes in Hup, Hdown.
    apply slice_to_In in Hup, Hdown.
    apply (Permutation_in _ (sorted_perm _ _ _)) in Hup, Hdown.
    apply (changes_of_spec previous true Hwf) in Hup.
    apply (changes_of_spec previous false Hwf) in Hdown.
    destruct Hup as (r & p & Hr & Hp & -> & Hu).
    destruct Hdown as (r' & p' & Hr' & Hp' & -> & Hd).
    rewrite Hr in Hr'. rewrite Hp in Hp'.
    injection Hr' as <-. injection Hp' as <-.
    unfold direction_matches in *. lra.
Qed.

Lemma get_biggest_changes_one_entry_witness :
  dict_wf scenario_current /\
  NoDup (keys (get_biggest_changes scenario_current scenario_previous 2 true)).
Proof.
  assert (Hwf : dict_wf scenario_current).
  { unfold dict_wf, keys. simpl.
    repeat constructor; simpl; intuition discriminate. }
  split; [exact Hwf|].
  exact (proj1 (get_biggest_changes_one_entry scenario_previous 2 2 Hwf) true).
Defined.

Lemma get_biggest_changes_none (current previous : dict Q) (n : Z)
    (increasing : bool) :
  dict_wf current ->
  (forall s rate prev,
      dict_get current s = Some rate -> dict_get previous s = Some prev ->
      rate == prev) ->
  get_biggest_changes current previous n increasing = [].
Proof.
  intros Hwf Hsame. unfold get_biggest_changes.
  assert (E : changes_of current previous increasing = []).
  { destruct (changes_of current previous increasing) as [|[s c] l] eqn:E;
      [reflexivity|].
    assert (Hin : In (s, c) (changes_of current previous increasing))
      by (rewrite E; now left).
    apply (changes_of_spec previous increasing Hwf) in Hin.
    destruct Hin as (rate & prev & Hr & Hp & -> & Hd).
    specialize (Hsame s rate prev Hr Hp).
    exfalso. unfold direction_matches in Hd. destruct increasing; lra. }
  rewrite E. unfold sorted, slice_to. simpl.
  destruct increasing; simpl; destruct (n <? 0)%Z; apply firstn_nil.
Qed.

Lemma get_biggest_changes_same (rates : dict Q) (n : Z) (increasing : bool) :
  dict_wf rates -> get_biggest_changes rates rates n increasing = [].
Proof.
  intro Hwf. apply get_biggest_changes_none; [exact Hwf|].
  intros s rate prev Hr Hp. rewrite Hr in Hp. injection Hp as <-. reflexivity.
Qed.

(** X6.  When every symbol that both mappings carry has the same rate in both,
    [get_biggest_changes] returns nothing, for either direction; in
    particular a mapping compared with itself shows no change. *)
Theorem get_biggest_changes_unchanged (current previous : dict Q) (n : Z)
    (increasing : bool) :
  dict_wf current ->
  (forall s rate prev,
      dict_get current s = Some rate -> dict_get previous s = Some prev ->
      rate == prev) ->
  get_biggest_changes current previous n increasing = [] /\
  get_biggest_changes current current n increasing = [].
Proof.
  intros Hwf Hsame. split.
  - now apply get_biggest_changes_none.
  - now apply get_biggest_changes_same.
Qed.

Lemma get_biggest_changes_unchanged_witness :
  dict_wf scenario_current /\
  get_biggest_changes scenario_current
    [("A"%string, 2 # 100); ("D"%string, 7 # 100)] 2 true = [].
Proof.
  assert (Hwf : dict_wf scenario_current).
  { unfold dict_wf, keys. simpl.
    repeat constructor; simpl; intuition discriminate. }
  split; [exact Hwf|].
  refine (proj1 (@get_biggest_changes_unchanged scenario_current
                   [("A"%string, 2 # 100); ("D"%string, 7 # 100)] 2 true
                   Hwf _)).
  intros s rate prev Hr Hp. simpl in Hr, Hp.
  destruct (String.eqb_spec s "A") as [->|HA];
    [injection Hr as <-; injection Hp as <-; reflexivity|].
  destruct (String.eqb_spec s "D") as [->|HD]; [|discriminate].
  simpl in Hr. discriminate.
Defined.

(** ** The snapshot of a poll *)





(** X8.  Two polls in a row that fetch the same rates: the second snapshot
    reports no increase and no decrease, whatever became of the writes. *)
Theorem run_task_twice_same_rates (fetched : dict Q) (now now' : string)
    (outcome outcome' : write_outcome) (self : Tracker.t) :
  dict_wf fetched -> fetched <> [] ->
  exists st,
    fst (run_task fetched now' outcome'
                  (snd (run_task fetched now outcome self))) = Some st /\
    biggest_increases st = [] /\ biggest_decreases st = [] /\
    previous_rates st = fetched.
Proof.
  intros Hwf Hne.
  rewrite (run_task_rates now outcome self Hne). simpl.
  rewrite run_task_rates by exact Hne. simpl.
  eexists. split; [reflexivity|]. simpl.
  rewrite !get_biggest_changes_same by exact Hwf. now repeat split.
Qed.

Lemma run_task_twice_same_rates_witness :
  dict_wf scenario_current /\ scenario_current <> [] /\
  exists st,
    fst (run_task scenario_current "t2" WriteCompletes
                  (snd (run_task scenario_current "t1" (WriteRaises 0)
                                 fresh_tracker))) = Some st /\
    biggest_increases st = [] /\ biggest_decreases st = [] /\
    previous_rates st = scenario_current.
Proof.
  assert (Hwf : dict_wf scenario_current).
  { unfold dict_wf, keys. simpl.
    repeat constructor; simpl; intuition discriminate. }
  assert (Hne : scenario_current <> []) by discriminate.
  split; [exact Hwf|]. split; [exact Hne|].
  exact (run_task_twice_same_rates "t1" "t2" (WriteRaises 0) WriteCompletes
                                   fresh_tracker Hwf Hne).
Defined.

(** ** Dictionaries: assignment and lookup *)

Lemma dict_get_set_same (V : Type) (d : dict V) (k : string) (v : V) :
  dict_get (dict_set d k v) k = Some v.
Proof.
  induction d as [|[k' v'] d IH]; simpl.
  - now rewrite String.eqb_refl.
  - destruct (String.eqb_spec k k') as [->|Hne]; simpl.
    + now rewrite String.eqb_refl.
    + destruct (String.eqb_spec k k'); [contradiction|exact IH].
Qed.

Lemma dict_get_set_other (V : Type) (d : dict V) (k k' : string) (v : V) :
  k' <> k -> dict_get (dict_set d k v) k' = dict_get d k'.
Proof.
  intro Hne. induction d as [|[k0 v0] d IH]; simpl.
  - destruct (String.eqb_spec k' k); [contradiction|reflexivity].
  - destruct (String.eqb_spec k k0) as [->|Hk]; simpl.
    + destruct (String.eqb_spec k' k0); [contradiction|reflexivity].
    + destruct (String.eqb_spec k' k0); [reflexivity|exact IH].
Qed.

Lemma keys_dict_set (V : Type) (d : dict V) (k k' : string) (v : V) :
  In k' (keys (dict_set d k v)) <-> k' = k \/ In k' (keys d).
Proof.
  unfold keys. induction d as [|[k0 v0] d IH]; simpl.
  - intuition.
  - destruct (String.eqb_spec k k0) as [->|Hk]; simpl; [intuition|].
    rewrite IH. intuition.
Qed.

Lemma dict_set_wf (V : Type) (d : dict V) (k : string) (v : V) :
  dict_wf d -> dict_wf (dict_set d k v).
Proof.
  unfold dict_wf. induction d as [|[k0 v0] d IH]; simpl; intro H.
  - repeat constructor. simpl. tauto.
  - inversion H as [|? ? Hnotin Hd]; subst.
    destruct (String.eqb_spec k k0) as [->|Hk]; simpl.
    + now constructor.
    + constructor; [|now apply IH].
      change (~ In k0 (keys (dict_set d k v))). rewrite keys_dict_set.
      intros [->|Hin]; [now apply Hk|now apply Hnotin].
Qed.

(** ** get_funding_rates *)

Lemma endswith_spec (s suffix : string) :
  endswith s suffix = true <-> exists p, s = (p ++ suffix)%string.
Proof.
  induction s as [|c s IH]; cbn [endswith].
  - rewrite orb_false_r, String.eqb_eq. split.
    + intros <-. now exists EmptyString.
    + intros [p Hp]. destruct p; [exact Hp|discriminate].
  - rewrite orb_true_iff, IH, String.eqb_eq. split.
    + intros [<-|[p ->]].
      * now exists EmptyString.
      * now exists (String c p).
    + intros [[|c' p] Hp]; cbn [String.append] in Hp.
      * now left.
      * right. injection Hp as -> ->. now exists p.
Qed.

Lemma funding_rates_loop_snoc (data : list index_item) (item : index_item)
    (acc : dict Q) :
  funding_rates_loop (data ++ [item]) acc
  = bind (funding_rates_loop data acc) (fun d => funding_rates_step d item).
Proof.
  revert acc. induction data as [|x data IH]; intro acc; simpl.
  - now destruct (funding_rates_step acc item).
  - destruct (funding_rates_step acc x); simpl; [apply IH|reflexivity].
Qed.

Lemma funding_rates_loop_usdt (data : list index_item) (acc : dict Q) :
  funding_rates_loop data acc = funding_rates_loop (usdt_items data) acc.
Proof.
  revert acc. unfold usdt_items.
  induction data as [|x data IH]; intro acc; simpl; [reflexivity|].
  unfold funding_rates_step at 1.
  destruct (endswith (item_symbol x) "USDT") eqn:E; simpl.
  - unfold funding_rates_step. rewrite E.
    destruct (lastFundingRate x); simpl; [apply IH|reflexivity].
  - apply IH.
Qed.

Lemma snoc_split (A : Type) (data before after : list A) (x item : A) :
  data ++ [x] = before ++ item :: after ->
  (after = [] /\ item = x /\ data = before) \/
  (exists after', after = after' ++ [x] /\ data = before ++ item :: after').
Proof.
  intro H. destruct (@exists_last _ (item :: after) ltac:(discriminate))
    as (l & y & E).
  rewrite E, app_assoc in H. apply app_inj_tail in H. destruct H as [-> <-].
  destruct after as [|a after].
  - left. destruct l as [|? [|? ?]]; simpl in E; try discriminate.
    injection E as ->. now rewrite app_nil_r.
  - right. destruct (@exists_last _ (a :: after) ltac:(discriminate))
      as (after' & z & E').
    rewrite E' in E. change (item :: after' ++ [z]) with ((item :: after') ++ [z]) in E.
    apply app_inj_tail in E. destruct E as [<- <-].
    exists after'. split; [exact E'|reflexivity].
Qed.

Lemma funding_rates_loop_spec (data : list index_item) (d : dict Q) :
  funding_rates_loop data [] = Ok d ->
  dict_wf d /\
  (forall k, In k (keys d) -> endswith k "USDT" = true) /\
  (forall s r,
      dict_get d s = Some r <->
      exists before item after,
        data = before ++ item :: after /\
        item_symbol item = s /\ endswith s "USDT" = true /\
        lastFundingRate item = Ok r /\
        Forall (fun later => item_symbol later <> s) after).
Proof.
  revert d. induction data as [|x data IH] using rev_ind; intros d' H.
  - simpl in H. injection H as <-. split; [constructor|].
    split; [simpl; tauto|]. intros s r. split; [discriminate|].
    intros (before & item & after & E & _). now destruct before.
  - rewrite funding_rates_loop_snoc in H.
    destruct (funding_rates_loop data []) as [d|e]; [|discriminate].
    destruct (IH d eq_refl) as (Hwf & Hkeys & Hget). simpl in H.
    unfold funding_rates_step in H.
    destruct (endswith (item_symbol x) "USDT") eqn:Ex.
    + destruct (lastFundingRate x) as [v|e] eqn:Ev; [|discriminate].
      simpl in H. injection H as <-.
      split; [now apply dict_set_wf|]. split.
      * intros k Hk. apply keys_dict_set in Hk.
        destruct Hk as [->|Hk]; [exact Ex|now apply Hkeys].
      * intros s r. destruct (String.eqb_spec s (item_symbol x)) as [->|Hne].
        -- rewrite dict_get_set_same. split.
           ++ intros [= <-]. exists data, x, []. repeat split; auto.
           ++ intros (before & item & after & E & Hs & _ & Hr & Hafter).
              apply snoc_split in E.
              destruct E as [(-> & -> & _)|(after' & -> & _)].
              ** rewrite Ev in Hr. now injection Hr as ->.
              ** apply Forall_app in Hafter. destruct Hafter as [_ Hx].
                 inversion Hx; subst. contradiction.
        -- rewrite dict_get_set_other by exact Hne. rewrite Hget. split.
           ++ intros (before & item & after & -> & Hs & He & Hr & Hafter).
              exists before, item, (after ++ [x]). rewrite <- app_assoc.
              repeat split; auto. apply Forall_app. split; [exact Hafter|].
              constructor; [|constructor]. congruence.
           ++ intros (before & item & after & E & Hs & He & Hr & Hafter).
              apply snoc_split in E.
              destruct E as [(-> & -> & _)|(after' & -> & ->)];
                [now symmetry in Hs|].
              apply Forall_app in Hafter. destruct Hafter as [Hafter _].
              now exists before, item, after'.
    + injection H as <-. split; [exact Hwf|]. split; [exact Hkeys|].
      intros s r. rewrite Hget. split.
      * intros (before & item & after & -> & Hs & He & Hr & Hafter).
        exists before, item, (after ++ [x]). rewrite <- app_assoc.
        repeat split; auto. apply Forall_app. split; [exact Hafter|].
        constructor; [|constructor]. intro Heq. congruence.
      * intros (before & item & after & E & Hs & He & Hr & Hafter).
        apply snoc_split in E.
        destruct E as [(-> & -> & _)|(after' & -> & ->)]; [congruence|].
        apply Forall_app in Hafter. destruct Hafter as [Hafter _].
        now exists before, item, after'.
Qed.

(** X9.  When no exception is raised, [get_funding_rates] returns a dictionary
    whose keys all end in [USDT]; a symbol maps to the rate of the last item
    of the response that carries it, and a symbol that does not end in
    [USDT] is never a key. *)
Theorem get_funding_rates_last_item_wins (data : list index_item) :
  Forall (fun item => exists r, lastFundingRate item = Ok r) (usdt_items data) ->
  dict_wf (get_funding_rates (Ok data)) /\
  (forall k,
      In k (keys (get_funding_rates (Ok data))) ->
      exists p, k = (p ++ "USDT")%string) /\
  (forall s r,
      dict_get (get_funding_rates (Ok data)) s = Some r <->
      exists before item after,
        data = before ++ item :: after /\
        item_symbol item = s /\ endswith s "USDT" = true /\
        lastFundingRate item = Ok r /\
        Forall (fun later => item_symbol later <> s) after).
Proof.
  intro Hok. unfold get_funding_rates, bind.
  assert (H : exists d, funding_rates_loop data [] = Ok d).
  { rewrite funding_rates_loop_usdt. generalize (@nil (string * Q)).
    induction Hok as [|x l [r Hr] _ IH]; intro acc; simpl; [eauto|].
    unfold funding_rates_step. rewrite Hr.
    destruct (endswith (item_symbol x) "USDT"); simpl; apply IH. }
  destruct H as [d Hd]. rewrite Hd.
  destruct (funding_rates_loop_spec data Hd) as (Hwf & Hkeys & Hget).
  split; [exact Hwf|]. split; [|exact Hget].
  intros k Hk. apply endswith_spec. now apply Hkeys.
Qed.

Lemma get_funding_rates_last_item_wins_witness :
  Forall (fun item => exists r, lastFundingRate item = Ok r)
         (usdt_items sample_index) /\
  dict_wf (get_funding_rates (Ok sample_index)) /\
  get_funding_rates (Ok sample_index)
  = [("BTCUSDT"%string, 3 # 10000); ("ETHUSDT"%string, - (2 # 10000))].
Proof.
  assert (H : Forall (fun item => exists r, lastFundingRate item = Ok r)
                     (usdt_items sample_index)).
  { vm_compute. repeat constructor; eexists; reflexivity. }
  split; [exact H|]. split.
  - exact (proj1 (get_funding_rates_last_item_wins sample_index H)).
  - reflexivity.
Defined.

Lemma funding_rates_loop_raises (items : list index_item) (acc : dict Q) :
  Forall (fun item => endswith (item_symbol item) "USDT" = true) items ->
  Exists (fun item => exists e, lastFundingRate item = Raise e) items ->
  exists e, funding_rates_loop items acc = Raise e.
Proof.
  intros Hall Hex. revert acc.
  induction Hex as [x l [e He]|x l _ IH]; intro acc;
    inversion Hall as [|? ? Hx Hl]; subst; simpl;
    unfold funding_rates_step; rewrite Hx.
  - rewrite He. simpl. eauto.
  - destruct (lastFundingRate x); simpl; eauto.
Qed.

(** X10.  A poll is skipped whenever the fetch fails: when the request raises,
    when the rate of some item whose symbol ends in [USDT] does not parse, or
    when no symbol ends in [USDT], [get_funding_rates] returns the empty
    dictionary, and the poll returns nothing and leaves the baseline and the
    snapshot file as they were.  Rates of the other symbols are never read:
    two responses with the same [USDT] items give the same dictionary. *)
Theorem failed_fetch_skips_poll :
  (forall response now outcome self,
      (exists e, response = Raise e) \/
      (exists data,
          response = Ok data /\
          (usdt_items data = [] \/
           Exists (fun item => exists e, lastFundingRate item = Raise e)
                  (usdt_items data))) ->
      get_funding_rates response = [] /\
      fst (poll_exchange response now outcome self) = None /\
      Tracker.previous_rates (snd (poll_exchange response now outcome self))
      = Tracker.previous_rates self /\
      Tracker.data_file (snd (poll_exchange response now outcome self))
      = Tracker.data_file self) /\
  (forall data data',
      usdt_items data = usdt_items data' ->
      get_funding_rates (Ok data) = get_funding_rates (Ok data')).
Proof.
  split.
  - intros response now outcome self H.
    assert (E : get_funding_rates response = []).
    { destruct H as [[e ->]|(data & -> & H)]; [reflexivity|].
      unfold get_funding_rates, bind. rewrite funding_rates_loop_usdt.
      destruct H as [->|H]; [reflexivity|].
      destruct (@funding_rates_loop_raises (usdt_items data) [])
        as [e ->]; [|exact H|reflexivity].
      unfold usdt_items. apply Forall_forall. intros x Hx.
      now apply filter_In in Hx. }
    unfold poll_exchange. rewrite E, run_task_no_rates. now repeat split.
  - intros data data' H. unfold get_funding_rates, bind.
    now rewrite (funding_rates_loop_usdt data),
      (funding_rates_loop_usdt data'), H.
Qed.

Lemma failed_fetch_skips_poll_witness :
  get_funding_rates
    (Ok [{| item_symbol := "BTCUSDT"; lastFundingRate := Ok (1 # 10000) |};
         {| item_symbol := "ETHUSDT";
            lastFundingRate := Raise RequestException |}])
  = [].
Proof.
  refine (proj1 (proj1 failed_fetch_skips_poll _ "t"%string WriteCompletes
                       fresh_tracker _)).
  right. eexists. split; [reflexivity|]. right.
  vm_compute. apply Exists_cons_tl, Exists_cons_hd. eexists. reflexivity.
Defined.

(** ** The limiter: bursts, waiting, bounds *)

Lemma evict_length (current_time tw : Q) (queue : list Q) :
  (List.length (evict current_time tw queue) <= List.length queue)%nat.
Proof.
  destruct (evict_suffix current_time tw queue) as [dropped E].
  rewrite E at 2. rewrite length_app. lia.
Qed.

Lemma acquire_room (current_time : Q) (self : RateLimiter) :
  (Z.of_nat (List.length (requests self)) < max_requests self)%Z ->
  acquire current_time self
  = (Ok 0,
     set_requests
       (evict current_time (time_window self) (requests self) ++ [current_time])
       self).
Proof.
  intro H. unfold acquire.
  assert (Hl := evict_length current_time (time_window self) (requests self)).
  destruct (Z.leb_spec (max_requests self)
              (Z.of_nat (List.length
                 (evict current_time (time_window self) (requests self)))));
    [lia|reflexivity].
Qed.

Lemma acquire_all_burst (clock : list Q) :
  forall self,
    (Z.of_nat (List.length (requests self) + List.length clock)
     <= max_requests self)%Z ->
    List.length (acquire_all clock self) = List.length clock /\
    Forall (fun c => returned_at c == read_at c) (acquire_all clock self).
Proof.
  induction clock as [|current_time clock IH]; intros self H; simpl.
  - split; [reflexivity|constructor].
  - cbn [List.length] in H.
    assert (Hroom : (Z.of_nat (List.length (requests self))
                     < max_requests self)%Z) by lia.
    rewrite (acquire_room current_time self Hroom).
    destruct (IH (set_requests
                    (evict current_time (time_window self) (requests self)
                       ++ [current_time]) self)) as [Hlen Hall].
    { cbn [requests max_requests set_requests]. rewrite length_app.
      cbn [List.length].
      assert (Hl := evict_length current_time (time_window self)
                                 (requests self)).
      lia. }
    split; [simpl; now rewrite Hlen|].
    constructor; [simpl; lra|exact Hall].
Qed.

(** X14.  A burst goes through at once: on a new limiter, none of the first
    [max_requests] calls of [acquire] sleeps, whatever the clock reads. *)
Theorem acquire_burst_never_sleeps (max_requests : Z) (time_window : Q)
    (clock : list Q) :
  (Z.of_nat (List.length clock) <= max_requests)%Z ->
  List.length (acquire_all clock (new_limiter max_requests time_window))
  = List.length clock /\
  Forall (fun c => slept c == 0)
         (acquire_all clock (new_limiter max_requests time_window)).
Proof.
  intro H.
  destruct (@acquire_all_burst clock (new_limiter max_requests time_window))
    as [Hlen Hall]; [simpl; lia|].
  split; [exact Hlen|].
  eapply Forall_impl; [|exact Hall]. intros c Hc. unfold slept.
  cbv beta in Hc. lra.
Qed.

Lemma acquire_burst_never_sleeps_witness :
  Forall (fun c => slept c == 0)
         (acquire_all [0; 0; 100; 3] (new_limiter 5 1)).
Proof.
  refine (proj2 (@acquire_burst_never_sleeps 5 1 [0; 0; 100; 3] _)).
  simpl. lia.
Defined.

(** X16.  With [max_requests <= 0] the limiter lets nothing through: on a new
    limiter every call of [acquire] raises [IndexError] (the read of
    [queue[0]] on the empty queue) and leaves the limiter as it was, so a
    sequence of calls completes none. *)
Theorem acquire_without_quota_raises (max_requests : Z) (time_window : Q) :
  (max_requests <= 0)%Z ->
  (forall current_time,
      acquire current_time (new_limiter max_requests time_window)
      = (Raise IndexError, new_limiter max_requests time_window)) /\
  (forall clock,
      acquire_all clock (new_limiter max_requests time_window) = []).
Proof.
  intro H.
  assert (E : forall current_time,
             acquire current_time (new_limiter max_requests time_window)
             = (Raise IndexError, new_limiter max_requests time_window)).
  { intro current_time. unfold acquire, new_limiter. simpl.
    destruct (Z.leb_spec max_requests 0); [reflexivity|lia]. }
  split; [exact E|].
  intros [|current_time clock]; [reflexivity|]. simpl. now rewrite E.
Qed.

Lemma acquire_without_quota_raises_witness :
  acquire 7 (new_limiter 0 1) = (Raise IndexError, new_limiter 0 1).
Proof.
  refine (proj1 (@acquire_without_quota_raises 0 1 _) 7). lia.
Defined.

Lemma evict_keep (current_time tw first : Q) (rest : list Q) :
  current_time - first <= tw ->
  evict current_time tw (first :: rest) = first :: rest.
Proof.
  intro H. simpl. apply Qltb_false in H. now rewrite H.
Qed.

Lemma acquire_all_cons (current_time : Q) (clock : list Q)
    (self self' : RateLimiter) (sleep : Q) :
  acquire current_time self = (Ok sleep, self') ->
  acquire_all (current_time :: clock) self
  = {| before := self; read_at := current_time;
       returned_at := current_time + sleep; after := self' |}
      :: acquire_all clock self'.
Proof. intro H. simpl. now rewrite H. Qed.

Lemma acquire_waits_from (others : list Q) :
  forall (self : RateLimiter) (first c : Q) (queued : list Q),
    requests self = first :: queued ->
    Forall (fun t => t - first <= time_window self) (others ++ [c]) ->
    Z.of_nat (List.length (first :: queued) + List.length others)
    = max_requests self ->
    exists earlier final,
      acquire_all (others ++ [c]) self = earlier ++ [final] /\
      Forall (fun call => slept call == 0) earlier /\
      read_at final = c /\
      returned_at final == first + time_window self /\
      requests (after final) = first :: queued ++ others ++ [c].
Proof.
  induction others as [|t others IH]; intros self first c queued Hq Hin Hlen.
  - inversion Hin as [|? ? Hc _]; subst.
    rewrite Nat.add_0_r in Hlen.
    assert (E : exists sleep,
               acquire c self
               = (Ok sleep, set_requests ((first :: queued) ++ [c]) self) /\
               sleep == first + time_window self - c).
    { unfold acquire. rewrite Hq, evict_keep by exact Hc.
      destruct (Z.leb_spec (max_requests self)
                  (Z.of_nat (List.length (first :: queued)))); [|lia].
      eexists. split; [reflexivity|].
      destruct (Qltb 0 (first + time_window self - c)) eqn:E; [reflexivity|].
      apply Qltb_false in E. lra. }
    destruct E as (sleep & E & Hs).
    cbn [app]. rewrite (@acquire_all_cons _ [] _ _ _ E).
    eexists [], _. split; [reflexivity|]. split; [constructor|].
    cbn [read_at returned_at after requests set_requests].
    split; [reflexivity|]. split; [lra|reflexivity].
  - inversion Hin as [|? ? Ht Hin']; subst.
    cbn [List.length] in Hlen.
    assert (E : acquire t self
                = (Ok 0, set_requests ((first :: queued) ++ [t]) self)).
    { rewrite acquire_room by (rewrite Hq; cbn [List.length]; lia).
      now rewrite Hq, evict_keep by exact Ht. }
    cbn [app]. rewrite (@acquire_all_cons _ (others ++ [c]) _ _ _ E).
    destruct (IH (set_requests ((first :: queued) ++ [t]) self)
                 first c (queued ++ [t]))
      as (earlier & final & E' & H0 & Hr & Hret & Hreq).
    { reflexivity. }
    { exact Hin'. }
    { cbn [max_requests set_requests List.length]. rewrite length_app.
      cbn [List.length]. lia. }
    rewrite E'. eexists (_ :: earlier), final. split; [reflexivity|].
    split; [constructor; [unfold slept; simpl; lra|exact H0]|].
    split; [exact Hr|]. split; [exact Hret|].
    rewrite Hreq, <- app_assoc. reflexivity.
Qed.

(** X15.  The call after a full burst waits for the window: when [max_requests]
    calls have gone through and the next call reads the clock while the
    first recorded timestamp is still at most [time_window] old, that call
    returns exactly when the first timestamp is [time_window] old, the calls
    before it having returned at once. *)
Theorem acquire_waits_for_window (max_requests : Z) (time_window first c : Q)
    (others : list Q) :
  Z.of_nat (List.length (first :: others)) = max_requests ->
  Forall (fun t => t - first <= time_window) (others ++ [c]) ->
  exists earlier final,
    acquire_all (first :: others ++ [c]) (new_limiter max_requests time_window)
    = earlier ++ [final] /\
    Forall (fun call => slept call == 0) earlier /\
    read_at final = c /\
    returned_at final == first + time_window /\
    requests (after final) = first :: others ++ [c].
Proof.
  intros Hlen Hin. cbn [List.length] in Hlen.
  assert (E : acquire first (new_limiter max_requests time_window)
              = (Ok 0, set_requests [first]
                         (new_limiter max_requests time_window))).
  { rewrite acquire_room by (simpl; lia). reflexivity. }
  rewrite (@acquire_all_cons _ (others ++ [c]) _ _ _ E).
  destruct (@acquire_waits_from others
              (set_requests [first] (new_limiter max_requests time_window))
              first c []) as (earlier & final & E' & H0 & Hr & Hret & Hreq).
  { reflexivity. }
  { exact Hin. }
  { simpl. lia. }
  rewrite E'. eexists (_ :: earlier), final. split; [reflexivity|].
  split; [constructor; [unfold slept; simpl; lra|exact H0]|].
  split; [exact Hr|]. split; [exact Hret|exact Hreq].
Qed.

Lemma acquire_waits_for_window_witness :
  exists earlier final,
    acquire_all [0; 1 # 10; 2 # 10] (new_limiter 2 1) = earlier ++ [final] /\
    Forall (fun call => slept call == 0) earlier /\
    read_at final = 2 # 10 /\
    returned_at final == 0 + 1 /\
    requests (after final) = [0; 1 # 10; 2 # 10].
Proof.
  apply (@acquire_waits_for_window 2 1 0 (2 # 10) [1 # 10]).
  - reflexivity.
  - repeat constructor; vm_compute; discriminate.
Defined.

Lemma acquire_sleep_bound (current_time bound : Q) (self self' : RateLimiter)
    (sleep : Q) :
  0 <= time_window self ->
  Forall (fun t => t <= bound) (requests self) ->
  bound <= current_time ->
  acquire current_time self = (Ok sleep, self') ->
  0 <= sleep <= time_window self /\
  time_window self' = time_window self /\
  Forall (fun t => t <= current_time) (requests self').
Proof.
  intros Htw Hle Hb. unfold acquire.
  destruct (evict_suffix current_time (time_window self) (requests self))
    as [dropped Hq].
  remember (evict current_time (time_window self) (requests self)) as queue.
  assert (Hk : Forall (fun t => t <= current_time) (queue ++ [current_time])).
  { rewrite Hq in Hle. apply Forall_app in Hle. destruct Hle as [_ Hle].
    apply Forall_app. split.
    - eapply Forall_impl; [|exact Hle]. intros t Ht. cbv beta in Ht. lra.
    - repeat constructor. lra. }
  destruct (max_requests self <=? Z.of_nat (List.length queue))%Z.
  - destruct queue as [|oldest queue']; [discriminate|].
    intros [= <- <-]. split; [|split; [reflexivity|exact Hk]].
    inversion Hk as [|? ? Ho _]; subst.
    destruct (Qltb 0 (oldest + time_window self - current_time)) eqn:E.
    + apply Qltb_true in E. lra.
    + lra.
  - intros [= <- <-]. split; [lra|]. split; [reflexivity|exact Hk].
Qed.

Lemma acquire_all_sleep_bound (clock : list Q) :
  forall (self : RateLimiter) (bound : Q),
    0 <= time_window self ->
    Forall (fun t => t <= bound) (requests self) ->
    Forall (fun t => bound <= t) clock ->
    StronglySorted Qle clock ->
    Forall (fun c => 0 <= slept c <= time_window self) (acquire_all clock self).
Proof.
  induction clock as [|current_time clock IH];
    intros self bound Htw Hle Hb Hs; simpl; [constructor|].
  inversion Hb as [|? ? Hb1 _]; subst.
  inversion Hs as [|? ? Hs' Hall]; subst.
  destruct (acquire current_time self) as [[sleep|e] self'] eqn:E;
    [|constructor].
  destruct (@acquire_sleep_bound _ _ _ _ _ Htw Hle Hb1 E)
    as (Hsl & Htw' & Hle').
  constructor.
  - unfold slept. simpl. lra.
  - rewrite <- Htw'. apply (IH self' current_time); try assumption.
    now rewrite Htw'.
Qed.

(** X17.  No call sleeps longer than the window: on a new limiter with
    [time_window >= 0], when the clock readings of successive calls never go
    back, every call of [acquire] sleeps between [0] and [time_window]. *)
Theorem acquire_sleeps_at_most_window (max_requests : Z) (time_window : Q)
    (clock : list Q) :
  0 <= time_window ->
  StronglySorted Qle clock ->
  Forall (fun c => 0 <= slept c <= time_window)
         (acquire_all clock (new_limiter max_requests time_window)).
Proof.
  intros Htw Hs. destruct clock as [|first clock]; [constructor|].
  apply (@acquire_all_sleep_bound (first :: clock)
           (new_limiter max_requests time_window) first);
    try assumption; [constructor|].
  inversion Hs as [|? ? _ Hall]; subst.
  constructor; [lra|exact Hall].
Qed.

Lemma acquire_sleeps_at_most_window_witness :
  Forall (fun c => 0 <= slept c <= 10)
         (acquire_all [0; 1; 10; 10] (new_limiter 1 10)).
Proof.
  apply (@acquire_sleeps_at_most_window 1 10 [0; 1; 10; 10]).
  - vm_compute. discriminate.
  - repeat constructor; vm_compute; discriminate.
Defined.

Lemma kept_bounded (current_time previous_return : Q) (self : RateLimiter) :
  limiter_inv previous_return self ->
  previous_return < current_time ->
  Forall (fun t => current_time - t <= time_window self)
         (evict current_time (time_window self) (requests self)) ->
  (Z.of_nat (List.length
               (evict current_time (time_window self) (requests self)))
   <= max_requests self)%Z.
Proof.
  intros (Hinv & _ & _) Hclock Hfresh. unfold within_window in Hinv.
  destruct (evict_suffix current_time (time_window self) (requests self))
    as [dropped Hq].
  remember (evict current_time (time_window self) (requests self)) as queue.
  rewrite Hq, younger_than_app, length_app in Hinv.
  assert (E : younger_than previous_return (time_window self) queue = queue).
  { clear -Hfresh Hclock. induction Hfresh as [|t l Ht _ IH]; [reflexivity|].
    rewrite younger_than_young by lra. now rewrite IH. }
  rewrite E in Hinv. lia.
Qed.

Lemma acquire_all_queue_bounded (clock : list Q) :
  forall (self : RateLimiter) (previous_return : Q),
    (0 < max_requests self)%Z ->
    limiter_inv previous_return self ->
    clock_advances previous_return (acquire_all clock self) ->
    Forall (fun c => (Z.of_nat (List.length (requests (after c)))
                      <= max_requests self + 1)%Z)
           (acquire_all clock self).
Proof.
  induction clock as [|current_time clock IH];
    intros self previous_return Hmax Hinv Hadv; [constructor|].
  destruct (acquire_step current_time self Hmax)
    as (sleep & self' & Hacq & Hproc & Hstep).
  rewrite (@acquire_all_cons _ clock _ _ _ Hacq) in *.
  destruct Hadv as [Hclock Hadv]. simpl in Hclock, Hadv.
  destruct (Hstep previous_return Hinv Hclock) as [Hinv' Hfresh].
  destruct Hproc as (Hreq & Hm & _). unfold kept in Hreq. simpl in Hreq, Hm.
  constructor.
  - simpl. rewrite Hreq, length_app. cbn [List.length].
    assert (Hk := @kept_bounded _ _ _ Hinv Hclock Hfresh). lia.
  - rewrite <- Hm. apply (IH self' (current_time + sleep)); try assumption.
    now rewrite Hm.
Qed.

(** X18.  The queue stays short: on a new limiter with [max_requests > 0], when
    every call reads the clock strictly later than the call before it
    returned, the queue never holds more than [max_requests + 1] timestamps
    after a call. *)
Theorem acquire_queue_bounded (max_requests : Z) (time_window : Q)
    (clock : list Q) :
  (0 < max_requests)%Z ->
  reads_after_returns
    (acquire_all clock (new_limiter max_requests time_window)) ->
  Forall (fun c => (Z.of_nat (List.length (requests (after c)))
                    <= max_requests + 1)%Z)
         (acquire_all clock (new_limiter max_requests time_window)).
Proof.
  intros Hmax Hreads. destruct clock as [|current_time clock]; [constructor|].
  apply (@acquire_all_queue_bounded (current_time :: clock)
           (new_limiter max_requests time_window) (current_time - 1) Hmax).
  - unfold limiter_inv, within_window, new_limiter. simpl.
    split; [lia|]. split; constructor.
  - destruct (acquire_all (current_time :: clock)
                (new_limiter max_requests time_window)) as [|c calls] eqn:E;
      [exact I|].
    simpl in Hreads |- *. split; [|exact Hreads].
    simpl in E.
    destruct (acquire current_time (new_limiter max_requests time_window))
      as [[sleep|e] self']; [|discriminate].
    injection E as <- _. simpl. lra.
Qed.

Lemma acquire_queue_bounded_witness :
  Forall (fun c => (Z.of_nat (List.length (requests (after c))) <= 1 + 1)%Z)
         (acquire_all [0; 1; 10 + (1 # 2); 30] (new_limiter 1 10)).
Proof.
  apply (@acquire_queue_bounded 1 10 [0; 1; 10 + (1 # 2); 30]).
  - lia.
  - vm_compute. repeat split.
Defined.

(** ** The history *)

(** X20.  [get_historical_klines] reads as many rows as the shorter of the
    two responses has.  When every open time read is one that
    [fromtimestamp] converts (a time of the years 1 to 9999) and no spot
    close read is zero, it returns four lists of that length: row by row the
    open time of the spot kline, the two closes, and the premium of the
    futures close over the spot close.  When one row read has an open time
    out of that range or a zero spot close, it returns four empty lists,
    whatever the other rows hold. *)
Theorem get_historical_klines_rows (spot_data futures_data : list kline_row) :
  (Forall (fun row => in_datetime_range (fst (fst row)) /\ ~ snd (fst row) == 0)
          (combine spot_data futures_data) ->
   get_historical_klines (Ok spot_data) (Ok futures_data)
   = (map (fun row => (fst (fst row) * 1000)%Z) (combine spot_data futures_data),
      map (fun row => snd (fst row)) (combine spot_data futures_data),
      map (fun row => snd (snd row)) (combine spot_data futures_data),
      map (fun row => (snd (snd row) - snd (fst row)) / snd (fst row) * 100)
          (combine spot_data futures_data))) /\
  (Exists (fun row => ~ in_datetime_range (fst (fst row)) \/ snd (fst row) == 0)
          (combine spot_data futures_data) ->
   get_historical_klines (Ok spot_data) (Ok futures_data) = ([], [], [], [])) /\
  List.length (combine spot_data futures_data)
  = Nat.min (List.length spot_data) (List.length futures_data).
Proof.
  split; [|split; [|apply length_combine]].
  - intro H. now apply get_historical_klines_readable.
  - intro H. apply get_historical_klines_unreadable.
    apply Exists_exists in H. destruct H as (row & Hin & H).
    apply Exists_exists. exists row. split; [exact Hin|].
    unfold readable. tauto.
Qed.

Lemma get_historical_klines_rows_witness :
  get_historical_klines (Ok [(60000%Z, 2); (120000%Z, 4)]) (Ok [(60000%Z, 3)])
  = ([60000000%Z], [2], [3], [(3 - 2) / 2 * 100]) /\
  get_historical_klines (Ok [(60000%Z, 2); ((MAX_TIMESTAMP_MS + 1)%Z, 4)])
                        (Ok [(60000%Z, 3); ((MAX_TIMESTAMP_MS + 1)%Z, 5)])
  = ([], [], [], []).
Proof.
  split.
  - refine (proj1 (@get_historical_klines_rows
                     [(60000%Z, 2); (120000%Z, 4)] [(60000%Z, 3)]) _).
    repeat constructor;
      try (unfold MIN_TIMESTAMP_MS, MAX_TIMESTAMP_MS; cbn [fst snd]; lia).
    cbn [fst snd]. intro H. discriminate H.
  - refine (proj1 (proj2 (@get_historical_klines_rows
                     [(60000%Z, 2); ((MAX_TIMESTAMP_MS + 1)%Z, 4)]
                     [(60000%Z, 3); ((MAX_TIMESTAMP_MS + 1)%Z, 5)])) _).
    cbn [combine]. apply Exists_cons_tl, Exists_cons_hd. left.
    unfold in_datetime_range, MIN_TIMESTAMP_MS, MAX_TIMESTAMP_MS.
    cbn [fst snd]. lia.
Defined.

Lemma klines_loop_lengths (rows : list (kline_row * kline_row)) :
  forall ts sp fu pr ts' sp' fu' pr',
    klines_loop rows (ts, sp, fu, pr) = Ok (ts', sp', fu', pr') ->
    List.length sp = List.length ts -> List.length fu = List.length ts ->
    List.length pr = List.length ts ->
    List.length sp' = List.length ts' /\ List.length fu' = List.length ts' /\
    List.length pr' = List.length ts'.
Proof.
  induction rows as [|[[t s] [t' f]] rows IH];
    intros ts sp fu pr ts' sp' fu' pr' H H1 H2 H3;
    cbn [klines_loop klines_step] in H.
  - injection H as <- <- <- <-. auto.
  - destruct (fromtimestamp t) as [timestamp|e]; [|discriminate].
    cbn [bind] in H.
    destruct (premium s f) as [p|e]; [|discriminate]. cbn [bind] in H.
    apply IH in H; [exact H| | |]; unfold append; rewrite !length_app; simpl;
      lia.
Qed.

Lemma get_historical_klines_lengths
    (spot_response futures_response : result (list kline_row)) :
  forall ts sp fu pr,
    get_historical_klines spot_response futures_response = (ts, sp, fu, pr) ->
    List.length sp = List.length ts /\ List.length fu = List.length ts /\
    List.length pr = List.length ts.
Proof.
  intros ts sp fu pr. unfold get_historical_klines, bind.
  destruct spot_response as [spot_data|e];
    [|intros [= <- <- <- <-]; auto].
  destruct futures_response as [futures_data|e];
    [|intros [= <- <- <- <-]; auto].
  destruct (klines_loop _ _) as [[[[a b] c] d]|e] eqn:E;
    [|intros [= <- <- <- <-]; auto].
  intros [= <- <- <- <-]. eapply klines_loop_lengths; [exact E| | |];
    reflexivity.
Qed.

Lemma history_series_length (timestamps : list Z) (history : list Z * list Q) :
  List.length (history_series timestamps history) = List.length timestamps.
Proof.
  unfold history_series, map_to_timestamps.
  destruct (snd history); [apply repeat_length|apply length_map].
Qed.

Lemma set_last_length (l : list Q) (v : Q) :
  List.length (set_last l v) = List.length l.
Proof.
  unfold set_last. destruct l as [|x l]; [reflexivity|].
  rewrite length_app, removelast_firstn_len, length_firstn. simpl. lia.
Qed.

Lemma update_data_aligned (now : Z)
    (spot_price futures_price funding_rate open_interest_now : option Q)
    (d : symbol_data) :
  aligned d ->
  aligned (snd (update_data now spot_price futures_price funding_rate
                            open_interest_now d)).
Proof.
  intro Hal.
  destruct spot_price as [spot|], futures_price as [futures|];
    try (rewrite update_data_unavailable by tauto; exact Hal).
  destruct (Qeq_dec spot 0) as [Hz|Hnz].
  - now rewrite update_data_zero_spot.
  - destruct (update_data_available_cut now futures funding_rate
                                        open_interest_now d Hnz)
      as (k & _ & ->).
    simpl. now apply aligned_cut, aligned_appended.
Qed.

Lemma update_all_aligned (samples : list sample) (d : symbol_data) :
  aligned d -> aligned (update_all samples d).
Proof.
  unfold update_all. revert d.
  induction samples as [|x samples IH]; intros d H; simpl; [exact H|].
  apply IH. now apply update_data_aligned.
Qed.

(** X21.  Loading the history sets up what [update_data] relies on.  A record
    that is already loaded is left alone.  Otherwise the load succeeds
    exactly when [get_historical_klines] returned a kline.  When it returned
    none (a request failed, no row came back, or a row could not be read)
    the load reports failure and leaves the record as it was.  When it
    returned some, the load reports success, marks the record as loaded and
    stores the four kline series as they were returned; whatever the
    funding-rate and open-interest histories hold, the six series of the
    record then have one length, and they keep one length through any later
    calls of [update_data]. *)
Theorem load_historical_data_aligns
    (spot_response futures_response : result (list kline_row))
    (funding_response oi_response : result (list (Z * Q)))
    (funding_rate open_interest_now : option Q) (s : session_data) :
  (historical_data_loaded s = true ->
   load_historical_data spot_response futures_response funding_response
                        oi_response funding_rate open_interest_now s
   = (true, s)) /\
  (historical_data_loaded s = false ->
   fst (fst (fst (get_historical_klines spot_response futures_response))) = [] ->
   load_historical_data spot_response futures_response funding_response
                        oi_response funding_rate open_interest_now s
   = (false, s)) /\
  (historical_data_loaded s = false ->
   fst (fst (fst (get_historical_klines spot_response futures_response))) <> [] ->
   exists s',
     load_historical_data spot_response futures_response funding_response
                          oi_response funding_rate open_interest_now s
     = (true, s') /\
     historical_data_loaded s' = true /\
     (timestamps (series s'), spot_prices (series s'),
      futures_prices (series s'), premiums (series s'))
     = get_historical_klines spot_response futures_response /\
     aligned (series s') /\
     forall samples, aligned (update_all samples (series s'))).
Proof.
  unfold load_historical_data. split; [intros ->; reflexivity|].
  destruct (get_historical_klines spot_response futures_response)
    as [[[ts sp] fu] pr] eqn:E.
  apply get_historical_klines_lengths in E. destruct E as (H1 & H2 & H3).
  cbn [fst]. split; intros -> Hts; cbn [negb].
  - now rewrite Hts.
  - destruct ts as [|t ts]; [contradiction|]. eexists. split; [reflexivity|].
    cbn [series historical_data_loaded timestamps spot_prices futures_prices
         premiums].
    split; [reflexivity|]. split; [reflexivity|].
    match goal with
    | |- aligned ?d /\ _ => assert (Hal : aligned d)
    end.
    { unfold aligned. cbn [timestamps spot_prices futures_prices premiums
                           funding_rates open_interest].
      repeat split; try assumption.
      - destruct funding_rate;
          now rewrite ?set_last_length, history_series_length.
      - destruct open_interest_now;
          now rewrite ?set_last_length, history_series_length. }
    split; [exact Hal|].
    intro samples. now apply update_all_aligned.
Qed.

Lemma load_historical_data_aligns_witness :
  load_historical_data
    (Raise RequestException) (Ok sample_futures_klines)
    (Raise RequestException) (Ok [(0%Z, 7)]) (Some (1 # 10000)) None
    {| series := sample_data; historical_data_loaded := false |}
  = (false, {| series := sample_data; historical_data_loaded := false |}) /\
  exists s',
    load_historical_data
      (Ok sample_spot_klines) (Ok sample_futures_klines)
      (Raise RequestException) (Ok [(0%Z, 7)]) (Some (1 # 10000)) None
      {| series := empty_data; historical_data_loaded := false |}
    = (true, s') /\
    timestamps (series s') = [60000000%Z; 120000000%Z] /\
    aligned (series s').
Proof.
  split.
  - exact (proj1 (proj2 (load_historical_data_aligns
             (Raise RequestException) (Ok sample_futures_klines)
             (Raise RequestException) (Ok [(0%Z, 7)]) (Some (1 # 10000)) None
             {| series := sample_data; historical_data_loaded := false |}))
           eq_refl eq_refl).
  - assert (Hts : fst (fst (fst (get_historical_klines
                     (Ok sample_spot_klines) (Ok sample_futures_klines)))) <> [])
      by discriminate.
    destruct (proj2 (proj2 (load_historical_data_aligns
                (Ok sample_spot_klines) (Ok sample_futures_klines)
                (Raise RequestException) (Ok [(0%Z, 7)]) (Some (1 # 10000)) None
                {| series := empty_data; historical_data_loaded := false |}))
              eq_refl Hts) as (s' & E & _ & Ek & Hal & _).
    exists s'. split; [exact E|]. split; [|exact Hal].
    exact (f_equal (fun r => fst (fst (fst r))) Ek).
Defined.

Lemma closest_loop_nearest (ts : Z) (stamps : list Z) :
  forall (seen : list Z) (closest_idx : nat) (min_diff : option Z),
    (seen = [] /\ min_diff = None) \/
    ((closest_idx < List.length seen)%nat /\
     min_diff = Some (distance ts (nth closest_idx seen 0%Z)) /\
     forall j, (j < List.length seen)%nat ->
       (distance ts (nth closest_idx seen 0%Z)
        <= distance ts (nth j seen 0%Z))%Z /\
       ((j < closest_idx)%nat ->
        (distance ts (nth closest_idx seen 0%Z)
         < distance ts (nth j seen 0%Z))%Z)) ->
    seen ++ stamps <> [] ->
    let found := closest_loop ts stamps (List.length seen) closest_idx min_diff in
    (found < List.length (seen ++ stamps))%nat /\
    forall j, (j < List.length (seen ++ stamps))%nat ->
      (distance ts (nth found (seen ++ stamps) 0%Z)
       <= distance ts (nth j (seen ++ stamps) 0%Z))%Z /\
      ((j < found)%nat ->
       (distance ts (nth found (seen ++ stamps) 0%Z)
        < distance ts (nth j (seen ++ stamps) 0%Z))%Z).
Proof.
  induction stamps as [|fts stamps IH]; intros seen c m Hinv Hne.
  - simpl. rewrite app_nil_r in *.
    destruct Hinv as [[-> _]|(Hc & _ & Hall)]; [contradiction|].
    split; assumption.
  - cbn [closest_loop]. fold (distance ts fts).
    assert (Hlen : List.length (seen ++ [fts]) = S (List.length seen))
      by (rewrite length_app; simpl; lia).
    assert (Hnew : nth (List.length seen) (seen ++ [fts]) 0%Z = fts)
      by (rewrite app_nth2, Nat.sub_diag by lia; reflexivity).
    assert (Hold : forall j, (j < List.length seen)%nat ->
               nth j (seen ++ [fts]) 0%Z = nth j seen 0%Z)
      by (intros j Hj; now apply app_nth1).
    replace (seen ++ fts :: stamps) with ((seen ++ [fts]) ++ stamps)
      by (now rewrite <- app_assoc).
    rewrite <- Hlen.
    assert (Hne' : (seen ++ [fts]) ++ stamps <> []) by (now destruct seen).
    destruct Hinv as [[-> ->]|(Hc & -> & Hall)].
    + apply IH; [|exact Hne']. right. simpl.
      split; [lia|]. split; [reflexivity|].
      intros j Hj. assert (j = 0)%nat as -> by lia. split; lia.
    + destruct (Z.ltb_spec (distance ts fts) (distance ts (nth c seen 0%Z)))
        as [Hlt|Hge];
        (apply IH; [|exact Hne']); right.
      * rewrite Hlen, Hnew. split; [lia|]. split; [reflexivity|].
        intros j Hj. destruct (Nat.eq_dec j (List.length seen)) as [->|Hj'].
        -- rewrite Hnew. split; lia.
        -- rewrite Hold by lia. destruct (Hall j ltac:(lia)) as [H1 _].
           split; lia.
      * rewrite Hlen, (Hold c Hc). split; [lia|]. split; [reflexivity|].
        intros j Hj. destruct (Nat.eq_dec j (List.length seen)) as [->|Hj'].
        -- rewrite Hnew. split; lia.
        -- rewrite Hold by lia. apply Hall. lia.
Qed.

(** X22.  The history is mapped onto the kline timestamps by nearest time: for a
    non-empty list of recording times, [closest] finds the index of a time at
    the least distance from [ts], the first one among equals; and when there
    are as many values as times, each entry of the mapped series is the
    value recorded at that index. *)
Theorem closest_is_nearest (ts : Z) (stamps : list Z) :
  stamps <> [] ->
  (closest ts stamps < List.length stamps)%nat /\
  (forall j, (j < List.length stamps)%nat ->
     (distance ts (nth (closest ts stamps) stamps 0%Z)
      <= distance ts (nth j stamps 0%Z))%Z /\
     ((j < closest ts stamps)%nat ->
      (distance ts (nth (closest ts stamps) stamps 0%Z)
       < distance ts (nth j stamps 0%Z))%Z)) /\
  (forall timestamps values,
      List.length values = List.length stamps ->
      map_to_timestamps timestamps stamps values
      = map (fun t => nth (closest t stamps) values 0) timestamps).
Proof.
  intro Hne.
  assert (H : forall t,
             (closest t stamps < List.length stamps)%nat /\
             forall j, (j < List.length stamps)%nat ->
               (distance t (nth (closest t stamps) stamps 0%Z)
                <= distance t (nth j stamps 0%Z))%Z /\
               ((j < closest t stamps)%nat ->
                (distance t (nth (closest t stamps) stamps 0%Z)
                 < distance t (nth j stamps 0%Z))%Z)).
  { intro t. apply (@closest_loop_nearest t stamps [] 0%nat None); auto. }
  split; [apply H|]. split; [apply H|].
  intros timestamps values Hlen. unfold map_to_timestamps.
  apply map_ext. intro t. cbv zeta.
  destruct (Nat.ltb_spec (closest t stamps) (List.length values));
    [reflexivity|].
  destruct (H t) as [Hlt _]. lia.
Qed.

Lemma closest_is_nearest_witness :
  (closest 130 [0; 100; 160; 200]%Z < 4)%nat /\
  closest 130 [0; 100; 160; 200]%Z = 1%nat.
Proof.
  split; [|reflexivity].
  refine (proj1 (@closest_is_nearest 130 [0; 100; 160; 200]%Z _)).
  discriminate.
Defined.

(** ** update_data: the retained window and the returned values *)

Lemma valid_first (cutoff_time : Z) (ts : list Z) :
  forall (start i : nat) (rest : list nat),
    map fst (filter (fun p => (cutoff_time <=? snd p)%Z)
                    (combine (seq start (List.length ts)) ts))
    = i :: rest ->
    exists k,
      i = (start + k)%nat /\ (k < List.length ts)%nat /\
      Forall (fun t => (t < cutoff_time)%Z) (firstn k ts) /\
      (cutoff_time <= nth k ts 0)%Z.
Proof.
  induction ts as [|t ts IH]; intros start i rest; simpl; [discriminate|].
  destruct (Z.leb_spec cutoff_time t) as [Hle|Hlt]; simpl.
  - intros [= <- _]. exists 0%nat. simpl. repeat split; [lia|lia|constructor|lia].
  - intro H. apply IH in H. destruct H as (k & -> & Hk & Hall & Hnth).
    exists (S k). simpl. repeat split; [lia|lia| |exact Hnth].
    now constructor.
Qed.

Lemma valid_none (cutoff_time : Z) (ts : list Z) :
  forall start : nat,
    map fst (filter (fun p => (cutoff_time <=? snd p)%Z)
                    (combine (seq start (List.length ts)) ts))
    = [] ->
    Forall (fun t => (t < cutoff_time)%Z) ts.
Proof.
  induction ts as [|t ts IH]; intro start; simpl; [constructor|].
  destruct (Z.leb_spec cutoff_time t) as [Hle|Hlt]; simpl; [discriminate|].
  intro H. constructor; [exact Hlt|]. now apply (IH (S start)).
Qed.

Lemma drop_expired_only_expired (now : Z) (d : symbol_data) :
  exists start_idx,
    drop_expired now d = cut start_idx d /\
    Forall (fun t => (t < cutoff now)%Z) (firstn start_idx (timestamps d)) /\
    (((start_idx < List.length (timestamps d))%nat /\
      (cutoff now <= nth start_idx (timestamps d) 0)%Z) \/
     (start_idx = 0%nat /\
      ((List.length (timestamps d) <= 1)%nat \/
       Forall (fun t => (t < cutoff now)%Z) (timestamps d)))).
Proof.
  unfold drop_expired. fold (cutoff now).
  destruct (Nat.ltb_spec 1 (List.length (timestamps d))) as [Hlen|Hlen];
    [|exists 0%nat; rewrite cut_0; repeat split; auto; constructor].
  destruct (timestamps d) as [|first ts] eqn:Ets; [simpl in Hlen; lia|].
  destruct (Z.ltb_spec first (cutoff now)) as [Hlt|Hge].
  - destruct (valid_indices (first :: ts) (cutoff now))
      as [|start_idx rest] eqn:Ev.
    + exists 0%nat. rewrite cut_0. split; [reflexivity|].
      split; [constructor|]. right. split; [reflexivity|]. right.
      now apply (@valid_none (cutoff now) (first :: ts) 0%nat).
    + unfold valid_indices in Ev. apply valid_first in Ev.
      destruct Ev as (k & -> & Hk & Hall & Hnth). simpl.
      exists k. split; [unfold cut; now rewrite Ets|].
      split; [exact Hall|]. left. now split.
  - exists 0%nat. rewrite cut_0. split; [reflexivity|].
    split; [constructor|]. left. simpl. split; [lia|exact Hge].
Qed.

Lemma StronglySorted_skipn (k : nat) (l : list Z) :
  StronglySorted Z.le l ->
  StronglySorted Z.le (skipn k l) /\
  ((k < List.length l)%nat ->
   Forall (fun t => (nth k l 0 <= t)%Z) (skipn k l)).
Proof.
  intro H. revert k. induction H as [|a l Hl IH Ha]; intro k.
  - rewrite skipn_nil. split; [constructor|simpl; lia].
  - destruct k as [|k]; simpl.
    + split; [now constructor|]. intros _. constructor; [lia|exact Ha].
    + destruct (IH k) as [H1 H2]. split; [exact H1|]. intro Hk. apply H2. lia.
Qed.

(** X24.  The clean-up of [update_data] drops only expired points, from the
    front: what it removes is older than four hours at [now].  When the
    stored timestamps are in order and none is later than [now], every
    timestamp kept lies within the last four hours, the newest being [now],
    and the order is kept, so the same holds after each later call. *)
Theorem update_data_keeps_window (now : Z) (spot futures : Q)
    (funding_rate open_interest_now : option Q) (d : symbol_data) :
  ~ spot == 0 ->
  (exists start_idx,
      timestamps (snd (update_data now (Some spot) (Some futures) funding_rate
                                   open_interest_now d))
      = slice_from (timestamps d ++ [now]) start_idx /\
      Forall (fun t => (t < cutoff now)%Z)
             (firstn start_idx (timestamps d ++ [now]))) /\
  (StronglySorted Z.le (timestamps d) ->
   Forall (fun t => (t <= now)%Z) (timestamps d) ->
   Forall (fun t => (cutoff now <= t <= now)%Z)
          (timestamps (snd (update_data now (Some spot) (Some futures)
                                        funding_rate open_interest_now d))) /\
   StronglySorted Z.le
     (timestamps (snd (update_data now (Some spot) (Some futures)
                                   funding_rate open_interest_now d))) /\
   last (timestamps (snd (update_data now (Some spot) (Some futures)
                                      funding_rate open_interest_now d))) 0%Z
   = now).
Proof.
  intro Hnz. rewrite update_data_available by exact Hnz. cbv zeta.
  destruct (drop_expired_only_expired now
              (appended now spot futures ((futures - spot) / spot * 100)
                        funding_rate open_interest_now d))
    as (k & -> & Hold & Hk).
  cbn [snd cut appended timestamps] in *.
  split; [exists k; now split|].
  intros Hsorted Hle.
  assert (Hs : StronglySorted Z.le (timestamps d ++ [now]))
    by (now apply StronglySorted_snoc).
  assert (Hcut : (cutoff now <= now)%Z)
    by (unfold cutoff, timedelta_hours, HOURS_TO_DISPLAY; lia).
  assert (Hall : Forall (fun t => (t <= now)%Z) (timestamps d ++ [now])).
  { apply Forall_app. split; [exact Hle|]. repeat constructor. lia. }
  assert (Hkl : (k <= List.length (timestamps d))%nat).
  { destruct Hk as [[Hk _]|[-> _]]; [|lia].
    rewrite length_app in Hk. simpl in Hk. lia. }
  destruct (StronglySorted_skipn k Hs) as [Hs' Hfrom].
  unfold slice_from. split; [|split; [exact Hs'|]].
  - assert (Hup : Forall (fun t => (t <= now)%Z)
                         (skipn k (timestamps d ++ [now]))).
    { rewrite <- (firstn_skipn k (timestamps d ++ [now])) in Hall.
      apply Forall_app in Hall. tauto. }
    assert (Hlow : Forall (fun t => (cutoff now <= t)%Z)
                          (skipn k (timestamps d ++ [now]))).
    { destruct Hk as [[Hk Hnth]|[-> [Hone|Hnone]]].
      - specialize (Hfrom Hk). eapply Forall_impl; [|exact Hfrom].
        intros t Ht'. cbv beta in Ht'. lia.
      - rewrite length_app in Hone. simpl in Hone.
        destruct (timestamps d); [|simpl in Hone; lia].
        repeat constructor. exact Hcut.
      - apply Forall_app in Hnone. destruct Hnone as [_ Hnow].
        inversion Hnow; subst. lia. }
    rewrite Forall_forall in *. intros t Hin.
    split; [now apply Hlow|now apply Hup].
  - rewrite skipn_app.
    replace (k - List.length (timestamps d))%nat with 0%nat by lia.
    simpl. apply last_last.
Qed.

Lemma update_data_keeps_window_witness :
  Forall (fun t => (cutoff (timedelta_hours 4 + 50) <= t
                    <= timedelta_hours 4 + 50)%Z)
         (timestamps
            (snd (update_data (timedelta_hours 4 + 50) (Some 2) (Some 3)
                              None None sample_data))).
Proof.
  refine (proj1 (proj2 (@update_data_keeps_window (timedelta_hours 4 + 50)
                          2 3 None None sample_data _) _ _)).
  - intro H. discriminate H.
  - repeat constructor; vm_compute; discriminate.
  - repeat constructor; vm_compute; discriminate.
Defined.

(** X25.  What [update_data] hands back when both prices are there and the spot
    price is not zero: the two prices, the premium and an open interest that
    is never missing (the fetched one, else the last stored one, else 0); the
    funding rate however is missing exactly when its fetch failed while the
    stored series was not empty, and is 0 when the fetch failed on an empty
    series. *)
Theorem update_data_returned_values (now : Z) (spot futures : Q)
    (funding_rate open_interest_now : option Q) (d : symbol_data) :
  ~ spot == 0 ->
  exists returned_funding returned_oi,
    fst (update_data now (Some spot) (Some futures) funding_rate
                     open_interest_now d)
    = Ok (Some spot, Some futures, Some ((futures - spot) / spot * 100),
          returned_funding, Some returned_oi) /\
    (returned_funding = None <->
     funding_rate = None /\ funding_rates d <> []) /\
    (funding_rate = None -> funding_rates d = [] ->
     returned_funding = Some 0) /\
    (forall r, funding_rate = Some r -> returned_funding = Some r) /\
    (forall oi, open_interest_now = Some oi -> returned_oi = oi) /\
    (open_interest_now = None -> returned_oi = last (open_interest d) 0).
Proof.
  intro Hnz. rewrite update_data_available by exact Hnz.
  unfold returned. cbn [fst]. eexists _, _. split; [reflexivity|].
  destruct funding_rate as [r|], (funding_rates d) as [|f fr];
    destruct open_interest_now as [oi|];
    repeat split; try tauto; try discriminate; try congruence;
    try (intros [H1 H2]; congruence);
    try (intros ? [= <-]; reflexivity).
Qed.

Lemma update_data_returned_values_witness :
  exists returned_funding returned_oi,
    fst (update_data 5 (Some 2) (Some 3) None None sample_data)
    = Ok (Some 2, Some 3, Some ((3 - 2) / 2 * 100),
          returned_funding, Some returned_oi) /\
    returned_funding = None.
Proof.
  assert (H : ~ 2 == 0) by (intro E; discriminate E).
  destruct (@update_data_returned_values 5 2 3 None None sample_data H)
    as (f & o & E & Hnone & _).
  exists f, o. split; [exact E|]. apply Hnone. split; [reflexivity|].
  discriminate.
Defined.

(** ** The collectors: what an entry holds *)

(** X26.  An entry of [get_klines_parallel] is built from the second candle of
    the response for its symbol, and exists only when at least two candles
    came back.  Its net inflow is the taker buy volume minus the rest of the
    quote volume, and so lies between minus and plus the quote volume
    whenever the taker buy volume lies between 0 and the quote volume. *)
Theorem fetch_kline_entry (response : symbol -> result (list candle))
    (s : symbol) (k : kline) :
  fetch_kline response s = Some k ->
  (exists first second rest,
      response s = Ok (first :: second :: rest) /\
      k_symbol k = s /\
      open_time k = c_open_time second /\
      close k = c_close second /\
      quote_volume k = c_quote_volume second /\
      taker_buy_quote_volume k = c_taker_buy_quote_volume second) /\
  net_inflow k
  == taker_buy_quote_volume k - (quote_volume k - taker_buy_quote_volume k) /\
  (0 <= taker_buy_quote_volume k <= quote_volume k ->
   - quote_volume k <= net_inflow k <= quote_volume k).
Proof.
  unfold fetch_kline. destruct (response s) as [data|e]; [|discriminate].
  destruct data as [|first [|second rest]]; try discriminate.
  simpl. intros [= <-]. simpl. split.
  - exists first, second, rest. now repeat split.
  - split; [ring|]. intros [H0 H1]. split; lra.
Qed.

Lemma fetch_kline_entry_witness :
  exists k,
    fetch_kline (fun _ => Ok [sample_candle; sample_candle]) "BTCUSDT"%string
    = Some k /\
    - quote_volume k <= net_inflow k <= quote_volume k.
Proof.
  eexists. split; [reflexivity|].
  refine (proj2 (proj2 (@fetch_kline_entry
                          (fun _ => Ok [sample_candle; sample_candle])
                          "BTCUSDT"%string _ eq_refl)) _).
  simpl. split; vm_compute; discriminate.
Defined.

(** X27.  A record of [get_position_data] built from two responses that came
    back: the change is the current minus the historical open interest (the
    first value of the history, 0 when the history is empty), and the
    percentage is the change relative to the historical value, or 0 when that
    is zero; no division by zero is attempted.  A fetch that failed cannot be
    told from a symbol without open interest: both give the zero-filled
    record. *)
Theorem get_position_data_record
    (open_interest_response : symbol -> result Q)
    (history_response : symbol -> result (list Q)) (s : symbol) :
  (forall current history,
      open_interest_response s = Ok current ->
      history_response s = Ok history ->
      let p := get_position_data open_interest_response history_response s in
      p_symbol p = s /\ current_oi p = current /\
      historical_oi p = hd 0 history /\
      change p = current - hd 0 history /\
      (~ hd 0 history == 0 ->
       change_percentage p = (current - hd 0 history) / hd 0 history * 100) /\
      (hd 0 history == 0 -> change_percentage p = 0)) /\
  (open_interest_response s = Ok 0 -> history_response s = Ok [] ->
   get_position_data open_interest_response history_response s
   = get_position_data unreachable_open_interest unreachable_history s).
Proof.
  split.
  - intros current history Ho Hh p. subst p. unfold get_position_data, bind.
    rewrite Ho, Hh.
    replace (match history with h :: _ => h | [] => 0 end) with (hd 0 history)
      by now destruct history.
    destruct (Qeq_bool (hd 0 history) 0) eqn:E; cbn [negb].
    + simpl. repeat split. intro H. apply Qeq_bool_iff in E. contradiction.
    + unfold truediv. rewrite E. simpl. repeat split.
      intro H. apply Qeq_bool_iff in H. congruence.
  - intros Ho Hh. unfold get_position_data, bind. now rewrite Ho, Hh.
Qed.

Lemma get_position_data_record_witness :
  change_percentage
    (get_position_data (fun _ => Ok 150) (fun _ => Ok [100; 90])
                       "BTCUSDT"%string)
  = (150 - 100) / 100 * 100.
Proof.
  destruct (@get_position_data_record (fun _ => Ok 150)
              (fun _ => Ok [100; 90]) "BTCUSDT"%string) as [H _].
  destruct (H 150 [100; 90] eq_refl eq_refl) as (_ & _ & _ & _ & Hp & _).
  apply Hp. intro E. discriminate E.
Defined.

(** ** Reading the snapshot back *)

Lemma decode_app (l l' : list chunk) (p : decoder) :
  decode (l ++ l') p
  = match decode l p with
    | Some p' => decode l' p'
    | None => None
    end.
Proof.
  revert p. induction l as [|c l IH]; intro p; simpl; [reflexivity|].
  destruct (decode_step p c); [apply IH|reflexivity].
Qed.

Lemma decode_entries (value_key : string) (l : list entry) :
  forall (items : list json) (outer : list frame) (rest : list chunk),
    decode (flat_map
              (fun e => [BeginObject; Key "symbol"; Str (fst e);
                         Key value_key; Num (snd e); EndObject]) l ++ rest)
           {| stack := InArray items :: outer; document := None |}
    = decode rest
        {| stack := InArray (items ++ map (entry_json value_key) l) :: outer;
           document := None |}.
Proof.
  induction l as [|e l IH]; intros items outer rest.
  - simpl. now rewrite app_nil_r.
  - cbn [flat_map map]. rewrite <- app_assoc.
    cbn [app decode decode_step document stack expects_value put_value].
    rewrite IH. unfold entry_json. now rewrite <- app_assoc.
Qed.

Lemma decode_dump_entries (value_key : string) (l : list entry)
    (members : dict json) (k : string) (outer : list frame)
    (rest : list chunk) :
  decode (dump_entries value_key l ++ rest)
         {| stack := InObject members (Some k) :: outer; document := None |}
  = decode rest
      {| stack :=
           InObject (dict_set members k (JArray (map (entry_json value_key) l)))
                    None :: outer;
         document := None |}.
Proof.
  unfold dump_entries. cbn [app decode decode_step document stack expects_value].
  rewrite <- app_assoc, decode_entries. reflexivity.
Qed.

Lemma decode_rates (d : dict Q) :
  forall (members : dict json) (outer : list frame) (rest : list chunk),
    decode (flat_map (fun e => [Key (fst e); Num (snd e)]) d ++ rest)
           {| stack := InObject members None :: outer; document := None |}
    = decode rest
        {| stack := InObject (rates_json d members) None :: outer;
           document := None |}.
Proof.
  induction d as [|e d IH]; intros members outer rest; [reflexivity|].
  cbn [flat_map]. rewrite <- app_assoc.
  cbn [app decode decode_step document stack put_value]. now rewrite IH.
Qed.

Lemma json_load_dump (s : stats) : json_load (json_dump s) = Some (stats_json s).
Proof.
  unfold json_load, json_dump, decoder_start.
  cbn [app decode decode_step document stack expects_value put_value].
  rewrite decode_dump_entries.
  cbn [app decode decode_step document stack expects_value put_value].
  rewrite decode_dump_entries.
  cbn [app decode decode_step document stack expects_value put_value].
  rewrite decode_dump_entries.
  cbn [app decode decode_step document stack expects_value put_value].
  rewrite decode_dump_entries.
  cbn [app decode decode_step document stack expects_value put_value].
  unfold dump_rates.
  cbn [app decode decode_step document stack expects_value put_value].
  rewrite <- app_assoc, decode_rates.
  reflexivity.
Qed.

Lemma rates_json_fresh (d : dict Q) :
  forall members : dict json,
    NoDup (keys d) ->
    (forall k, In k (keys members) -> ~ In k (keys d)) ->
    rates_json d members
    = members ++ map (fun e => (fst e, JNumber (snd e))) d.
Proof.
  unfold rates_json.
  induction d as [|[k q] d IH]; intros members Hnd Hdisj; simpl.
  - now rewrite app_nil_r.
  - inversion Hnd as [|? ? Hk Hnd']; subst.
    rewrite dict_set_fresh by (intro Hin; apply (Hdisj k Hin); now left).
    rewrite IH; [now rewrite <- app_assoc|exact Hnd'|].
    intros k' Hk'. unfold keys in Hk'. rewrite map_app in Hk'.
    apply in_app_or in Hk'. destruct Hk' as [Hk'|[<-|[]]]; [|exact Hk].
    intro Hin. apply (Hdisj k' Hk'). now right.
Qed.

Lemma as_rates_numbers (d : dict Q) :
  as_rates (map (fun e => (fst e, JNumber (snd e))) d) = Some d.
Proof.
  induction d as [|[k q] d IH]; simpl; [reflexivity|]. now rewrite IH.
Qed.

Lemma find_previous_rates_dump (s : stats) :
  dict_wf (previous_rates s) ->
  find_previous_rates (Some (json_dump s)) = Baseline (previous_rates s).
Proof.
  intro Hwf. unfold find_previous_rates. rewrite json_load_dump.
  unfold stats_json. rewrite dict_get_set_same.
  rewrite rates_json_fresh by (auto; simpl; tauto). simpl.
  now rewrite as_rates_numbers.
Qed.

Lemma decode_prefix_incomplete (l : list chunk) (c : chunk) (l' : list chunk)
    (p final : decoder) :
  decode (l ++ c :: l') p = Some final ->
  exists p', decode l p = Some p' /\ document p' = None.
Proof.
  rewrite decode_app. destruct (decode l p) as [p'|]; [|discriminate].
  simpl. unfold decode_step. destruct (document p') eqn:E; [discriminate|].
  intros _. now exists p'.
Qed.

Lemma json_load_strict_prefix (chunks : list chunk) (written : nat) (v : json) :
  json_load chunks = Some v ->
  (written < List.length chunks)%nat ->
  json_load (firstn written chunks) = None.
Proof.
  unfold json_load. intros Hload Hlt.
  destruct (decode chunks decoder_start) as [final|] eqn:E; [|discriminate].
  rewrite <- (firstn_skipn written chunks) in E.
  destruct (skipn written chunks) as [|c l'] eqn:Es.
  - apply (f_equal (@List.length chunk)) in Es.
    rewrite length_skipn in Es. simpl in Es. lia.
  - apply decode_prefix_incomplete in E. destruct E as (p' & -> & Hdoc).
    destruct p' as [st doc]. simpl in Hdoc. subst doc. now destruct st.
Qed.

(** X11.  The snapshot survives a restart: on the file a completed save of [s]
    left, the constructor starts the tracker with the [previous_rates] of [s]
    as its baseline (given that they form a dictionary).  In particular a
    tracker started after a poll that fetched rates and wrote its snapshot
    has the baseline the polling tracker held in memory. *)
Theorem init_reads_saved_baseline :
  (forall s old,
      dict_wf (previous_rates s) ->
      init (save s WriteCompletes old)
      = Some {| Tracker.previous_rates := previous_rates s;
                Tracker.current_rates := [];
                Tracker.data_file := Some (json_dump s) |}) /\
  (forall fetched now self,
      dict_wf fetched -> fetched <> [] ->
      exists restarted,
        init (Tracker.data_file
                (snd (run_task fetched now WriteCompletes self)))
        = Some restarted /\
        Tracker.previous_rates restarted = fetched /\
        Tracker.previous_rates restarted
        = Tracker.previous_rates
            (snd (run_task fetched now WriteCompletes self))).
Proof.
  assert (H : forall s old,
             dict_wf (previous_rates s) ->
             init (save s WriteCompletes old)
             = Some {| Tracker.previous_rates := previous_rates s;
                       Tracker.current_rates := [];
                       Tracker.data_file := Some (json_dump s) |}).
  { intros s old Hwf. rewrite (save_completes s old).
    unfold init. now rewrite find_previous_rates_dump. }
  split; [exact H|].
  intros fetched now self Hwf Hne.
  rewrite run_task_rates by exact Hne. cbn [snd Tracker.data_file
                                            Tracker.previous_rates].
  rewrite H by exact Hwf. eexists. split; [reflexivity|]. now split.
Qed.

Lemma init_reads_saved_baseline_witness :
  dict_wf (previous_rates snapshot_b) /\
  init (save snapshot_b WriteCompletes (Some (json_dump snapshot_a)))
  = Some {| Tracker.previous_rates := [("A"%string, 2 # 100)];
            Tracker.current_rates := [];
            Tracker.data_file := Some (json_dump snapshot_b) |}.
Proof.
  assert (Hwf : dict_wf (previous_rates snapshot_b)).
  { unfold dict_wf, keys. simpl. repeat constructor. simpl. tauto. }
  split; [exact Hwf|].
  exact (proj1 init_reads_saved_baseline snapshot_b
               (Some (json_dump snapshot_a)) Hwf).
Defined.

(** X12.  An interrupted save costs the baseline: on the file a save leaves when
    it is interrupted anywhere between the [open] and the last write, and on
    a missing file, the constructor catches the decoding error and starts
    the tracker with an empty baseline, whatever snapshot was there before
    the save began. *)
Theorem init_after_interrupted_save (old : file) (s : stats) (k : nat) :
  (1 <= k < save_steps (json_dump s))%nat ->
  init (file_after old (json_dump s) k)
  = Some {| Tracker.previous_rates := []; Tracker.current_rates := [];
            Tracker.data_file := file_after old (json_dump s) k |} /\
  init None = Some fresh_tracker.
Proof.
  intro Hk. split; [|reflexivity].
  destruct k as [|written]; [lia|]. unfold save_steps in Hk. simpl.
  unfold init, find_previous_rates.
  rewrite (@json_load_strict_prefix (json_dump s) written (stats_json s));
    [reflexivity|apply json_load_dump|lia].
Qed.

Lemma init_after_interrupted_save_witness :
  Tracker.previous_rates
    (match init (file_after (Some (json_dump snapshot_a))
                            (json_dump snapshot_b) 10) with
     | Some t => t
     | None => fresh_tracker
     end)
  = [].
Proof.
  rewrite (proj1 (@init_after_interrupted_save (Some (json_dump snapshot_a))
                    snapshot_b 10 ltac:(vm_compute; split; repeat constructor))).
  reflexivity.
Defined.

(** ** The premium: its sign *)

(** X19.  For a spot price above zero the premium has the sign of the difference
    between the futures and the spot price: it is positive exactly when the
    futures price is higher, zero exactly when the two agree, negative
    exactly when it is lower.  For a spot price below zero the sign is the
    opposite one. *)
Theorem premium_sign (spot futures : Q) :
  ~ spot == 0 ->
  exists v,
    premium spot futures = Ok v /\
    (0 < spot -> (0 < v <-> spot < futures) /\ (v == 0 <-> futures == spot) /\
                 (v < 0 <-> futures < spot)) /\
    (spot < 0 -> (0 < v <-> futures < spot) /\ (v < 0 <-> spot < futures)).
Proof.
  intro Hnz. rewrite premium_nonzero by exact Hnz. eexists. split; [reflexivity|].
  assert (E : (futures - spot) / spot * 100 * spot == (futures - spot) * 100)
    by (field; exact Hnz).
  set (v := (futures - spot) / spot * 100) in *.
  assert (Hinv : forall a b : Q, 0 < a -> 0 < b -> 0 < a * b)
    by (intros a b Ha Hb; nra).
  split; intro Hs; repeat split; intro H; nra.
Qed.

Lemma premium_sign_witness :
  exists v, premium 2 3 = Ok v /\ 0 < v.
Proof.
  destruct (@premium_sign 2 3 ltac:(intro E; discriminate E))
    as (v & E & Hpos & _).
  exists v. split; [exact E|]. apply (proj1 (Hpos ltac:(reflexivity))).
  reflexivity.
Defined.

(** ** The loaded funding series *)





